(** * The Starknet transfer action of arcade-ai: validation, recipient
      extraction and decimal-to-minor-unit conversion

    Shallow embedding of [packages/plugin-starknet/src/actions/transfer.ts]
    and of its sibling variant (the "lucky money" handler), with the
    ECMAScript built-ins they call ([typeof], truthiness, [Number],
    [Math.floor], [Math.pow], [Number.prototype.toString],
    [Number.prototype.toFixed], [BigInt], [String.prototype.match])
    modelled after ECMA-262.

    In the words of the specification, [validate] is [isTransferContent]
    (with [tokenIdentifier], [recipientAddress] and [recipientName] for
    [tokenAddress], [recipient] and [starkName]), and [resolve] is the
    [try] block of the handler: decimals lookup, conversion of the amount,
    recipient resolution, transfer call. *)

From Stdlib Require Import ZArith QArith Qround Qabs Qpower.
From Stdlib Require Import Bool List String Ascii Lia Lqa.
From Stdlib Require Import Decimal DecimalString DecimalN DecimalPos.
From Stdlib Require Import SpecFloat.
Import ListNotations.

Local Open Scope Z_scope.

(** ** ECMAScript numbers

    A Number is an IEEE 754 binary64 value.  A finite one is kept as the
    exact rational it denotes (always stored in lowest terms by the
    operations below).  The two zeros are merged: the program only applies
    truthiness, [typeof], [*], [+], [Math.floor] and [toString] to numbers,
    and none of them tells [-0] from [+0] in a way that reaches a result. *)

Inductive number : Type :=
  | NaN : number
  | Inf (negative : bool) : number
  | Fin (q : Q) : number.

Definition two_pow (e : Z) : Q := Qpower 2 e.
Definition ten_pow (e : Z) : Q := Qpower 10 e.

(** [ilog2Q q] is the integer [g] with [2^g <= q < 2^(g+1)], for [q > 0]. *)
Definition ilog2Q (q : Q) : Z :=
  let g := Z.log2 (Qnum q) - Z.log2 (Zpos (Qden q)) in
  if Qle_bool (two_pow g) q then g else g - 1.

(** Nearest integer, ties to the even one. *)
Definition round_half_even (s : Q) : Z :=
  let f := Qfloor s in
  match Qcompare (s - inject_Z f)%Q (1 # 2) with
  | Lt => f
  | Gt => f + 1
  | Eq => if Z.even f then f else f + 1
  end.

(** Exponent of the unit in the last place of the binade of [a > 0]:
    53 significant bits, subnormals below [2^-1022]. *)
Definition ulp_exp (a : Q) : Z := Z.max (-1074) (ilog2Q a - 52).

(** ECMA-262 6.1.6.1, "the Number value for x": the binary64 value nearest
    to the real [q], ties to the even significand, overflowing to an
    infinity from [2^1024] on. *)
Definition F (q : Q) : number :=
  if Qeq_bool q 0 then Fin 0
  else
    let a := Qabs q in
    let e := ulp_exp a in
    let r := (inject_Z (round_half_even (a / two_pow e)) * two_pow e)%Q in
    if Qle_bool (two_pow 1024) r then Inf (negb (Qle_bool 0 q))
    else Fin (Qred (if Qle_bool 0 q then r else (- r)%Q)).

(** Number::multiply and Number::add (ECMA-262 6.1.6.1.4 and 6.1.6.1.7). *)
Definition is_zero (q : Q) : bool := Qeq_bool q 0.
Definition is_neg (q : Q) : bool := negb (Qle_bool 0 q).

Definition Number_multiply (x y : number) : number :=
  match x, y with
  | NaN, _ | _, NaN => NaN
  | Inf s, Inf t => Inf (xorb s t)
  | Inf s, Fin q | Fin q, Inf s =>
      if is_zero q then NaN else Inf (xorb s (is_neg q))
  | Fin a, Fin b => F (a * b)
  end.

Definition Number_add (x y : number) : number :=
  match x, y with
  | NaN, _ | _, NaN => NaN
  | Inf s, Inf t => if Bool.eqb s t then Inf s else NaN
  | Inf s, Fin _ | Fin _, Inf s => Inf s
  | Fin a, Fin b => F (a + b)
  end.

(** [Math.floor]: exact on every finite double. *)
Definition Math_floor (x : number) : number :=
  match x with
  | Fin q => Fin (inject_Z (Qfloor q))
  | _ => x
  end.

(** The same values in the Standard Library's model of IEEE 754
    ([SpecFloat], precision 53 and maximal exponent 1024), to compare [F]
    with its [SFmul], [SFadd] and [SFdiv].  [toSF] expects a double. *)
Definition toSF (x : number) : spec_float :=
  match x with
  | NaN => S754_nan
  | Inf s => S754_infinity s
  | Fin q =>
      let k := Z.log2 (Zpos (Qden q)) in (* the denominator is 2^k *)
      let n := Z.abs (Qnum q) in
      let e := Z.max (-1074) (Z.log2 n - k - 52) in
      let m := if 0 <=? - k - e then n * 2 ^ (- k - e) else n / 2 ^ (k + e) in
      match m with
      | Zpos p => S754_finite (is_neg q) p e
      | _ => S754_zero false
      end
  end.

Definition ofSF (f : spec_float) : number :=
  match f with
  | S754_nan => NaN
  | S754_infinity s => Inf s
  | S754_zero _ => Fin 0
  | S754_finite s m e =>
      Fin (Qred ((if s then - inject_Z (Zpos m) else inject_Z (Zpos m)) *
                 two_pow e))
  end.

(** ** ECMAScript values, errors and results

    A string is the sequence of its UTF-16 code units, of which those
    below 256 are represented; [String.length] is the [length] property.
    [VObject] stands for any object or array of the parsed JSON. *)

Inductive value : Type :=
  | VUndefined
  | VNull
  | VBool (b : bool)
  | VNumber (n : number)
  | VString (s : string)
  | VObject.

Definition typeof (v : value) : string :=
  match v with
  | VUndefined => "undefined"
  | VNull => "object"
  | VBool _ => "boolean"
  | VNumber _ => "number"
  | VString _ => "string"
  | VObject => "object"
  end.

(** ToBoolean (ECMA-262 7.1.2): what [if (v)] and [!v] test. *)
Definition ToBoolean (v : value) : bool :=
  match v with
  | VUndefined | VNull => false
  | VBool b => b
  | VNumber NaN => false
  | VNumber (Inf _) => true
  | VNumber (Fin q) => negb (is_zero q)
  | VString s => negb (s =? "")%string
  | VObject => true
  end.

(** [v ?? w] keeps [v] unless it is [null] or [undefined]. *)
Definition nullish (v : value) : bool :=
  match v with
  | VUndefined | VNull => true
  | _ => false
  end.

Inductive error : Type :=
  | TypeError
  | SyntaxError
  | Rejected (message : string).

Inductive result (A : Type) : Type :=
  | Ok (a : A)
  | Throw (e : error).
Arguments Ok {A} a.
Arguments Throw {A} e.

(** [s.startsWith(p)] and [s.length] on strings. *)
Definition startsWith (s p : string) : bool := String.prefix p s.

(** ** [isTransferContent] *)

(** The content object comes out of a language model as parsed JSON, so
    each field holds an arbitrary value whatever the interface declares;
    a missing field reads as [undefined]. *)
Record TransferContent : Type := mkContent {
  tokenAddress : value;
  recipient : value;
  starkName : value;
  amount : value
}.

Definition is_typeof (v : value) (t : string) : bool := (typeof v =? t)%string.

Section Validation.

(** [isStarkDomain] is imported from [../utils/starknetId]: the name
    service's own validator, taken as given. *)
Variable isStarkDomain : value -> bool.

Definition isTransferContent (content : TransferContent) : result bool :=
  (* Validate types *)
  let validTypes :=
    is_typeof (tokenAddress content) "string" &&
    (is_typeof (recipient content) "string" ||
     is_typeof (starkName content) "string") &&
    (is_typeof (amount content) "string" ||
     is_typeof (amount content) "number") in
  if negb validTypes then Ok false
  else
    match tokenAddress content with
    | VString token =>
        (* Validate tokenAddress (must be 32-bytes long with 0x prefix) *)
        let validTokenAddress :=
          startsWith token "0x" && (String.length token =? 66)%nat in
        if negb validTokenAddress then Ok false
        else if ToBoolean (recipient content) then
          match recipient content with
          | VString r =>
              let validRecipient :=
                startsWith r "0x" && (String.length r =? 66)%nat in
              if negb validRecipient then Ok false else Ok true
          | _ => Throw TypeError (* [startsWith] is not a function *)
          end
        else if ToBoolean (starkName content) then
          let validStarkName := isStarkDomain (starkName content) in
          if negb validStarkName then Ok false else Ok true
        else Ok true
    | _ => Throw TypeError (* excluded by [validTypes] *)
    end.

End Validation.

(** ** [state.recentMessages.match(/0x[a-fA-F0-9]{64}/)] *)

Definition isHexDigit (c : ascii) : bool :=
  let n := nat_of_ascii c in
  ((48 <=? n) && (n <=? 57) || (65 <=? n) && (n <=? 70) ||
   (97 <=? n) && (n <=? 102))%nat.

(** The next [n] characters of [s], when there are that many and all are
    hexadecimal digits. *)
Fixpoint hexRun (n : nat) (s : string) : option string :=
  match n with
  | O => Some EmptyString
  | S n' =>
      match s with
      | String c s' =>
          if isHexDigit c then option_map (String c) (hexRun n' s') else None
      | EmptyString => None
      end
  end.

(** The pattern tried at the start of [s]. *)
Definition matchHere (s : string) : option string :=
  match s with
  | String "0" (String "x" s') =>
      option_map (fun h => String "0" (String "x" h)) (hexRun 64 s')
  | _ => None
  end.

(** The leftmost match, [recipient[0]] when [recipient] is not [null]. *)
Fixpoint regexMatch (s : string) : option string :=
  match matchHere s with
  | Some m => Some m
  | None =>
      match s with
      | EmptyString => None
      | String _ s' => regexMatch s'
      end
  end.

(** ** Numbers and strings

    Decimal digit strings are read and written with the Standard
    Library's [Decimal] conversions. *)

Definition digitsOf (z : Z) : string :=
  DecimalString.NilZero.string_of_uint (N.to_uint (Z.to_N z)).

(** The value of a string of decimal digits; [None] when the string is
    empty or holds anything else. *)
Definition parseDigits (s : string) : option Z :=
  option_map (fun u => Z.of_N (N.of_uint u))
             (DecimalString.NilZero.uint_of_string s).

Definition isDigit (c : ascii) : bool :=
  let n := nat_of_ascii c in ((48 <=? n) && (n <=? 57))%nat.

(** The longest prefix of decimal digits, and what follows it. *)
Fixpoint spanDigits (s : string) : string * string :=
  match s with
  | String c s' =>
      if isDigit c then
        let (d, rest) := spanDigits s' in (String c d, rest)
      else (EmptyString, s)
  | EmptyString => (EmptyString, EmptyString)
  end.

(** The value of a string of decimal digits, 0 for the empty string. *)
Definition digitsValue (s : string) : Z :=
  match DecimalString.NilEmpty.uint_of_string s with
  | Some u => Z.of_N (N.of_uint u)
  | None => 0
  end.

(** StrWhiteSpaceChar, among the code units below 256. *)
Definition isWhiteSpace (c : ascii) : bool :=
  let n := nat_of_ascii c in
  ((9 <=? n) && (n <=? 13) || (n =? 32) || (n =? 160))%nat.

Fixpoint trimStart (s : string) : string :=
  match s with
  | String c s' => if isWhiteSpace c then trimStart s' else s
  | EmptyString => EmptyString
  end.

Fixpoint trimEnd (s : string) : string :=
  match s with
  | String c s' =>
      let t := trimEnd s' in
      if isWhiteSpace c && (t =? "")%string then EmptyString else String c t
  | EmptyString => EmptyString
  end.

Definition trim (s : string) : string := trimEnd (trimStart s).

(** Digits in radix 2, 8 or 16 (NonDecimalIntegerLiteral). *)
Definition radixDigit (r : Z) (c : ascii) : option Z :=
  let n := Z.of_nat (nat_of_ascii c) in
  let v :=
    if (48 <=? n) && (n <=? 57) then Some (n - 48)
    else if (97 <=? n) && (n <=? 102) then Some (n - 87)
    else if (65 <=? n) && (n <=? 70) then Some (n - 55)
    else None in
  match v with
  | Some d => if d <? r then Some d else None
  | None => None
  end.

Fixpoint radixValue (r : Z) (s : string) (acc : Z) : option Z :=
  match s with
  | EmptyString => Some acc
  | String c s' =>
      match radixDigit r c with
      | Some d => radixValue r s' (acc * r + d)
      | None => None
      end
  end.

Definition nonDecimalLiteral (s : string) : option Z :=
  match s with
  | String "0" (String p (String c s')) =>
      let body := String c s' in
      if ((p =? "x") || (p =? "X"))%char then radixValue 16 body 0
      else if ((p =? "o") || (p =? "O"))%char then radixValue 8 body 0
      else if ((p =? "b") || (p =? "B"))%char then radixValue 2 body 0
      else None
  | _ => None
  end.

(** ExponentPart, or nothing: what may follow the mantissa of a
    StrUnsignedDecimalLiteral.  [None] when [s] is neither. *)
Definition parseExponent (s : string) : option Z :=
  match s with
  | EmptyString => Some 0
  | String c s' =>
      if ((c =? "e") || (c =? "E"))%char then
        match s' with
        | String "-" t => option_map Z.opp (parseDigits t)
        | String "+" t => parseDigits t
        | _ => parseDigits s'
        end
      else None
  end.

(** StrUnsignedDecimalLiteral (ECMA-262 7.1.4.1.1), with its mathematical
    value rounded once by [F].  Engines round the exact value of a literal
    of any length, and so does this. *)
Definition StrUnsignedDecimalLiteral (s : string) : option number :=
  if (s =? "Infinity")%string then Some (Inf false)
  else
    let (ip, r1) := spanDigits s in
    match r1 with
    | String "." r1' =>
        let (fp, r2) := spanDigits r1' in
        if ((ip ++ fp)%string =? "")%string then None
        else
          match parseExponent r2 with
          | Some e =>
              Some (F (inject_Z (digitsValue (ip ++ fp)) *
                       ten_pow (e - Z.of_nat (String.length fp))))
          | None => None
          end
    | _ =>
        if (ip =? "")%string then None
        else
          match parseExponent r1 with
          | Some e => Some (F (inject_Z (digitsValue ip) * ten_pow e))
          | None => None
          end
    end.

Definition Number_negate (x : number) : number :=
  match x with
  | NaN => NaN
  | Inf s => Inf (negb s)
  | Fin q => Fin (Qred (- q))
  end.

(** StringToNumber (ECMA-262 7.1.4.1.1): what [Number(s)] is on a string. *)
Definition StringToNumber (str : string) : number :=
  let s := trim str in
  if (s =? "")%string then Fin 0
  else
    match nonDecimalLiteral s with
    | Some z => F (inject_Z z)
    | None =>
        let lit :=
          match s with
          | String "+" t => StrUnsignedDecimalLiteral t
          | String "-" t => option_map Number_negate (StrUnsignedDecimalLiteral t)
          | _ => StrUnsignedDecimalLiteral s
          end in
        match lit with
        | Some x => x
        | None => NaN
        end
    end.

(** [Number(v)] on a value (ToNumber, ECMA-262 7.1.4).  The handler only
    applies it to an amount that [isTransferContent] found to be a string
    or a number; an opaque object is given [NaN], what a plain object
    converts to. *)
Definition Number_ (v : value) : number :=
  match v with
  | VUndefined => NaN
  | VNull => Fin 0
  | VBool b => if b then Fin 1 else Fin 0
  | VNumber n => n
  | VString s => StringToNumber s
  | VObject => NaN
  end.

(** [Number(b)] on a BigInt. *)
Definition Number_of_BigInt (z : Z) : number := F (inject_Z z).

(** [Math.pow(10, x)].  The handler's exponent is the [Number] of a
    BigInt, hence an integer (so that [Qfloor q] is [q] below) or an
    infinity.  ECMA-262 leaves the accuracy
    of [Math.pow] to the implementation; the powers of ten up to [10^22]
    are doubles and every engine returns them exactly, which is what [F]
    gives here. *)
Definition Math_pow10 (x : number) : number :=
  match x with
  | NaN => NaN
  | Inf false => Inf false
  | Inf true => Fin 0
  | Fin q => F (ten_pow (Qfloor q))
  end.

Definition number_eqb (x y : number) : bool :=
  match x, y with
  | Fin a, Fin b => Qeq_bool a b
  | Inf s, Inf t => Bool.eqb s t
  | _, _ => false
  end.

(** The number of decimal digits of [z > 0]. *)
Fixpoint digitCountAux (fuel : nat) (z : Z) : Z :=
  match fuel with
  | O => 1
  | S fuel' => if z <? 10 then 1 else 1 + digitCountAux fuel' (z / 10)
  end.

Definition digitCount (z : Z) : Z := digitCountAux (Z.to_nat (Z.log2 z)) z.

(** The [n] with [10^(n-1) <= q < 10^n], for [q > 0]. *)
Definition decimalExponent (q : Q) : Z :=
  if Qle_bool 1 q then digitCount (Qfloor q)
  else 1 - digitCount (Qceiling (/ q) - 1).

(** Number::toString step 5 (ECMA-262 6.1.6.1.20), for [x > 0]: integers
    [n], [k >= 1] and [s] with [10^(k-1) <= s < 10^k] such that
    [s * 10^(n-k)] rounds to [x] and [k] is as small as possible; among
    several [s], the one nearest to [x], the even one on a tie.  For each
    [k] the only candidates are the two [k]-digit decimals that enclose
    [x]. *)
Definition roundsTo (x : Q) (n k s : Z) : bool :=
  number_eqb (F (inject_Z s * ten_pow (n - k))) (Fin x).

Definition enclosing (x : Q) (n0 k : Z) : (Z * Z) * (Z * Z) :=
  let lo := Qfloor (x / ten_pow (n0 - k)) in
  let hi := lo + 1 in
  ((n0, lo), if hi =? 10 ^ k then (n0 + 1, 10 ^ (k - 1)) else (n0, hi)).

Definition nearer (x : Q) (k : Z) (c1 c2 : Z * Z) : Z * Z :=
  let d1 := Qabs (inject_Z (snd c1) * ten_pow (fst c1 - k) - x) in
  let d2 := Qabs (inject_Z (snd c2) * ten_pow (fst c2 - k) - x) in
  match Qcompare d1 d2 with
  | Lt => c1
  | Gt => c2
  | Eq => if Z.even (snd c1) then c1 else c2
  end.

Fixpoint shortestFrom (fuel : nat) (x : Q) (n0 k : Z) : Z * Z * Z :=
  let '(c1, c2) := enclosing x n0 k in
  let ok1 := roundsTo x (fst c1) k (snd c1) in
  let ok2 := roundsTo x (fst c2) k (snd c2) in
  let found c := (fst c, k, snd c) in
  if ok1 && ok2 then found (nearer x k c1 c2)
  else if ok1 then found c1
  else if ok2 then found c2
  else
    match fuel with
    | O => found c1
    | S fuel' => shortestFrom fuel' x n0 (k + 1)
    end.

(** Seventeen significant digits tell any two doubles apart. *)
Definition shortest (x : Q) : Z * Z * Z :=
  shortestFrom 16 x (decimalExponent x) 1.

Definition zeros (n : Z) : string :=
  String.concat "" (List.repeat "0"%string (Z.to_nat n)).

Definition substringFrom (i : nat) (s : string) : string :=
  String.substring i (String.length s - i) s.

(** Number::toString(x, 10) for a positive finite [x] (steps 5 to 10). *)
Definition positive_toString (x : Q) : string :=
  let '(n, k, s) := shortest x in
  let ds := digitsOf s in
  if (k <=? n) && (n <=? 21) then
    (* the digits of s followed by n - k zeros *)
    digitsOf (s * 10 ^ (n - k))
  else if (0 <? n) && (n <=? 21) then
    (String.substring 0 (Z.to_nat n) ds ++ "." ++
     substringFrom (Z.to_nat n) ds)%string
  else if (-6 <? n) && (n <=? 0) then
    ("0." ++ zeros (- n) ++ ds)%string
  else
    let e := n - 1 in
    let sign := if e <? 0 then "-"%string else "+"%string in
    let es := (sign ++ digitsOf (Z.abs e))%string in
    if k =? 1 then (ds ++ "e" ++ es)%string
    else
      (String.substring 0 1 ds ++ "." ++ substringFrom 1 ds ++ "e" ++ es)%string.

Definition Number_toString (x : number) : string :=
  match x with
  | NaN => "NaN"
  | Inf false => "Infinity"
  | Inf true => "-Infinity"
  | Fin q =>
      if is_zero q then "0"
      else if is_neg q then ("-" ++ positive_toString (- q))%string
      else positive_toString q
  end.

(** [Number.prototype.toFixed(f)] (ECMA-262 21.1.3.3): the integer [n]
    nearest to [x * 10^f], the larger one on a tie, written with [f]
    fractional digits. *)
Definition fixedDigits (q : Q) (f : Z) : string :=
  let n := Qfloor (q * ten_pow f + (1 # 2)) in
  let m := digitsOf n in
  if f =? 0 then m
  else
    let k := Z.of_nat (String.length m) in
    let m' := if k <=? f then (zeros (f + 1 - k) ++ m)%string else m in
    let k' := Z.to_nat (Z.max k (f + 1) - f) in
    (String.substring 0 k' m' ++ "." ++ substringFrom k' m')%string.

Definition Number_toFixed (x : number) (f : Z) : string :=
  match x with
  | Fin q =>
      if Qle_bool (ten_pow 21) (Qabs q) then Number_toString x
      else if is_neg q then ("-" ++ fixedDigits (- q) f)%string
      else fixedDigits q f
  | _ => Number_toString x
  end.

(** StringToBigInt (ECMA-262 7.1.14): what [BigInt(s)] is on a string; a
    string that is no integer literal makes [BigInt] throw a SyntaxError. *)
Definition BigInt (str : string) : result Z :=
  let s := trim str in
  if (s =? "")%string then Ok 0
  else
    match nonDecimalLiteral s with
    | Some z => Ok z
    | None =>
        let lit :=
          match s with
          | String "+" t => parseDigits t
          | String "-" t => option_map Z.opp (parseDigits t)
          | _ => parseDigits s
          end in
        match lit with
        | Some z => Ok z
        | None => Throw SyntaxError
        end
    end.

(** ** The handler's collaborators and its effects

    Everything the handler imports or is handed is a field of [World]:
    the agent runtime, the language model, the database adapter, the
    process-wide token table, the random source and the Starknet account
    and ERC20 wrappers.  Calls made outside the
    [try] block are taken to return; calls inside it may throw, which is
    what the [catch] is there for.  The loggers are left out. *)

Record State : Type := mkState {
  recentMessages : string;
  userId : string
}.

(** An account call as the ERC20 wrapper builds it (opaque calldata). *)
Definition Call : Type := list Z.

Record World : Type := mkWorld {
  composeState : State;                              (* runtime.composeState(message) *)
  updateRecentMessageState : State -> State;
  composeContext : State -> string;                  (* with transferTemplate *)
  generateObjectDeprecated : string -> TransferContent;
  STRK : value;                                      (* PROVIDER_CONFIG.TOKEN_ADDRESSES.STRK *)
  Math_random : number;
  getRecipient : value -> string -> bool;            (* truthiness of the answer *)
  addRecipient : value -> string -> value -> bool;
  isStarkDomain : value -> bool;
  getStarknetAccount : result unit;
  decimals : value -> result Z;                      (* erc20Token.decimals() *)
  getAddressFromName : value -> result value;
  transferCall : value -> value -> Z -> result Call;
  execute : Call -> result string                    (* the transaction hash *)
}.

(** What the handler tells its caller through [callback]. *)
Inductive reply : Type :=
  | InvalidContent                  (* "Not enough information to transfer tokens..." *)
  | Transferred (amount : value)    (* the thank-you message quoting the amount *)
  | Failed (e : error).             (* "Error transferring tokens: ..." *)

(** The calls that leave the handler, in the order they are made. *)
Inductive event : Type :=
  | AddRecipient (recipient : value) (user : string) (amount : value)
  | Decimals (token : value)
  | GetAddressFromName (name : value)
  | TransferCall (token recipient : value) (amountWei : Z)
  | Execute (call : Call)
  | Callback (r : reply).

(** Computations that log events and may throw. *)
Definition M (A : Type) : Type := list event -> list event * result A.

Definition ret {A} (a : A) : M A := fun t => (t, Ok a).

Definition bind {A B} (m : M A) (k : A -> M B) : M B :=
  fun t =>
    match m t with
    | (t', Ok a) => k a t'
    | (t', Throw e) => (t', Throw e)
    end.

Definition emit (e : event) : M unit := fun t => (t ++ [e], Ok tt).

Definition lift {A} (r : result A) : M A := fun t => (t, r).

Definition try_catch {A} (body : M A) (handle : error -> M A) : M A :=
  fun t =>
    match body t with
    | (t', Ok a) => (t', Ok a)
    | (t', Throw e) => handle e t'
    end.

Definition when (b : bool) (m : M unit) : M unit := if b then m else ret tt.

Declare Scope js_scope.
Delimit Scope js_scope with js.
Notation "x <- m ;; k" := (bind m (fun x => k))
  (at level 61, m at next level, right associativity) : js_scope.
Notation "m ;;; k" := (bind m (fun _ => k))
  (at level 61, right associativity) : js_scope.
Local Open Scope js_scope.

Definition run {A} (m : M A) : list event * result A := m [].

(** [Number((Math.random() * 4 + 1).toFixed(3))] *)
Definition randomAmount (random : number) : number :=
  StringToNumber
    (Number_toFixed (Number_add (Number_multiply random (Fin 4)) (Fin 1)) 3).

(** Lines 184 to 187: the amount in minor units.
    [Math.floor(Number(content.amount) * Math.pow(10, Number(decimals)))]
    and then [BigInt(amountInteger.toString())]. *)
Definition amountInteger (amount : value) (decimals : Z) : number :=
  Math_floor
    (Number_multiply (Number_ amount) (Math_pow10 (Number_of_BigInt decimals))).

Definition amountWei (amount : value) (decimals : Z) : result Z :=
  BigInt (Number_toString (amountInteger amount decimals)).

(** The [try] block with its [catch], the same in both files. *)
Definition tryTransfer (w : World) (content : TransferContent)
    (callback : bool) : M bool :=
  try_catch
    (_ <- lift (getStarknetAccount w) ;;
     emit (Decimals (tokenAddress content)) ;;;
     decimals <- lift (decimals w (tokenAddress content)) ;;
     (* Convert decimal amount to integer before converting to BigInt *)
     amountWei <- lift (amountWei (amount content) decimals) ;;
     recipient <-
       (if nullish (recipient content) then
          emit (GetAddressFromName (starkName content)) ;;;
          lift (getAddressFromName w (starkName content))
        else ret (recipient content)) ;;
     emit (TransferCall (tokenAddress content) recipient amountWei) ;;;
     transferCall <-
       lift (transferCall w (tokenAddress content) recipient amountWei) ;;
     emit (Execute transferCall) ;;;
     _ <- lift (execute w transferCall) ;;
     when callback (emit (Callback (Transferred (amount content)))) ;;;
     ret true)
    (fun error =>
       when callback (emit (Callback (Failed error))) ;;;
       ret false).

Definition set_tokenAddress (c : TransferContent) (v : value) :=
  mkContent v (recipient c) (starkName c) (amount c).
Definition set_recipient (c : TransferContent) (v : value) :=
  mkContent (tokenAddress c) v (starkName c) (amount c).
Definition set_amount (c : TransferContent) (v : value) :=
  mkContent (tokenAddress c) (recipient c) (starkName c) v.

(** From validation on, the same in both files. *)
Definition validateAndTransfer (w : World) (content : TransferContent)
    (callback : bool) : M bool :=
  valid <- lift (isTransferContent (isStarkDomain w) content) ;;
  if negb valid then
    when callback (emit (Callback InvalidContent)) ;;;
    ret false
  else tryTransfer w content callback.

(** The state and the content as the handler has them when it looks at
    the regular expression's result. *)
Definition currentState (w : World) (state : option State) : State :=
  match state with
  | None => composeState w
  | Some st => updateRecentMessageState w st
  end.

Definition generatedContent (w : World) (st : State) : TransferContent :=
  set_tokenAddress (generateObjectDeprecated w (composeContext w st)) (STRK w).

(** [handler] of [packages/plugin-starknet/src/actions/transfer.ts].
    [message] and [_options] only travel on to the runtime; [state] may
    be missing and [callback] may be absent. *)
Module TransferTs.

Definition handler (w : World) (state : option State) (callback : bool)
    : M bool :=
  let state := currentState w state in
  let found := regexMatch (recentMessages state) in
  let content := generatedContent w state in
  match found with
  | Some r0 =>
      let content := set_recipient content (VString r0) in
      (* random amount *)
      let content :=
        set_amount content (VNumber (randomAmount (Math_random w))) in
      validateAndTransfer w content callback
  | None => ret false
  end.

End TransferTs.

(** [handler] of the sibling file (the "lucky money" variant), which keeps
    the amount the model extracted and records each recipient. *)
Module LuckyMoney.

Definition handler (w : World) (state : option State) (callback : bool)
    : M bool :=
  let state := currentState w state in
  let found := regexMatch (recentMessages state) in
  let content := generatedContent w state in
  match found with
  | Some r0 =>
      let content := set_recipient content (VString r0) in
      (* random amount *)
      let content :=
        if negb (ToBoolean (amount content)) then
          set_amount content (VNumber (randomAmount (Math_random w)))
        else content in
      let recipientExists :=
        getRecipient w (recipient content) (userId state) in
      if recipientExists then ret false
      else
        emit (AddRecipient (recipient content) (userId state)
                           (amount content)) ;;;
        if negb (addRecipient w (recipient content) (userId state)
                              (amount content))
        then ret false
        else validateAndTransfer w content callback
  | None => ret false
  end.

End LuckyMoney.

(** ** Vocabulary of the properties *)

(** The shape both address checks of [isTransferContent] test. *)
Definition addressShape (s : string) : bool :=
  startsWith s "0x" && (String.length s =? 66)%nat.

Fixpoint allHex (s : string) : bool :=
  match s with
  | EmptyString => true
  | String c s' => isHexDigit c && allHex s'
  end.

(** [0x] followed by exactly 64 hexadecimal digits. *)
Definition hexAddress (s : string) : bool :=
  match s with
  | String "0" (String "x" h) => (String.length h =? 64)%nat && allHex h
  | _ => false
  end.

Definition tokenShape (v : value) : bool :=
  match v with
  | VString t => addressShape t
  | _ => false
  end.

Definition stringOrNumber (v : value) : bool :=
  match v with
  | VString _ | VNumber _ => true
  | _ => false
  end.

(** A field is set when it holds something other than [undefined] (a
    missing field) or [null]. *)
Definition isSet (v : value) : Prop := nullish v = false.

(** The numeric value of an amount is finite and strictly positive. *)
Definition positiveAmount (v : value) : Prop :=
  stringOrNumber v = true /\
  exists q, Number_ v = Fin q /\ (0 < q)%Q.

(** [r] occurs in [s] after [pre]. *)
Definition occursAt (s pre r : string) : Prop :=
  exists suf, s = (pre ++ r ++ suf)%string.

(** [r] is the leftmost substring of [s] that the pattern matches. *)
Definition firstMatch (s r : string) : Prop :=
  hexAddress r = true /\
  exists pre,
    occursAt s pre r /\
    forall pre' r', occursAt s pre' r' -> hexAddress r' = true ->
                    (String.length pre <= String.length pre')%nat.

Definition noMatch (s : string) : Prop :=
  forall pre r, occursAt s pre r -> hexAddress r = false.

(** The world in which the model extracted [v] as the recipient, all else
    being equal. *)
Definition extractingRecipient (w : World) (v : value) : World :=
  mkWorld (composeState w) (updateRecentMessageState w) (composeContext w)
          (fun ctx => set_recipient (generateObjectDeprecated w ctx) v)
          (STRK w) (Math_random w) (getRecipient w) (addRecipient w)
          (isStarkDomain w) (getStarknetAccount w) (decimals w)
          (getAddressFromName w) (transferCall w) (execute w).

(** A decimal literal with integer digits [ip] and fractional digits
    [fp], and the rational it denotes. *)
Fixpoint allDigits (s : string) : bool :=
  match s with
  | EmptyString => true
  | String c s' => isDigit c && allDigits s'
  end.

Definition decimalLiteral (ip fp : string) : string :=
  match fp with
  | EmptyString => ip
  | _ => (ip ++ "." ++ fp)%string
  end.

Definition literalValue (ip fp : string) : Q :=
  inject_Z (digitsValue (ip ++ fp)) / ten_pow (Z.of_nat (String.length fp)).

(** The exact amount in minor units: [q * 10^d], truncated toward zero. *)
Definition truncate (q : Q) : Z :=
  if Qle_bool 0 q then Qfloor q else Qceiling q.

Definition exactMinorUnits (q : Q) (d : Z) : Z := truncate (q * ten_pow d).

(** The doubles of magnitude below [2^53] that are not negative: the
    rationals [a / 2^j] with a 53-bit numerator. *)
Definition dyadic53 (q : Q) : Prop :=
  exists a j, 0 <= a < 2 ^ 53 /\ 0 <= j <= 1074 /\
              (q == inject_Z a / two_pow j)%Q.

(** Following the specification: "converting minor units back
    ([minorUnits / 10^d])", as the Number the division yields. *)
Definition minorUnitsBack (m d : Z) : number :=
  F (inject_Z m / ten_pow d).

(** What the [catch] clause does with an error, the recipient the
    transfer is addressed to, and what an event of the [try] block can
    be. *)

Definition caught (callback : bool) (e : error) (t : list event)
  : list event * result bool :=
  (if callback then t ++ [Callback (Failed e)] else t, Ok false).

(** The recipient the transfer is addressed to, and the events of finding
    it. *)
Definition resolved (w : World) (c : TransferContent)
  : list event * result value :=
  if nullish (recipient c)
  then ([GetAddressFromName (starkName c)], getAddressFromName w (starkName c))
  else ([], Ok (recipient c)).

(** What an event of the [try] block can be, for the content [c]. *)
Definition tryEvent (w : World) (c : TransferContent) (e : event) : Prop :=
  match e with
  | AddRecipient _ _ _ => False
  | Decimals tok => tok = tokenAddress c
  | GetAddressFromName n => nullish (recipient c) = true /\ n = starkName c
  | TransferCall tok r a =>
      tok = tokenAddress c /\
      snd (resolved w c) = Ok r /\
      exists d, decimals w (tokenAddress c) = Ok d /\
                amountWei (amount c) d = Ok a
  | Execute call =>
      exists r a, transferCall w (tokenAddress c) r a = Ok call
  | Callback r =>
      match r with
      | InvalidContent => False
      | Transferred a => a = amount c
      | Failed _ => True
      end
  end.

(** An event that concerns a recipient names [r0], and no name is looked
    up. *)
Definition addressedTo (r0 : string) (e : event) : Prop :=
  match e with
  | TransferCall _ r _ | AddRecipient r _ _ => r = VString r0
  | GetAddressFromName _ => False
  | _ => True
  end.

(** Characters of the decimal literals the lemmas below read: digits and
    the point. *)
Definition isPlain (c : ascii) : bool := isDigit c || (c =? ".")%char.

Fixpoint allPlain (s : string) : bool :=
  match s with
  | EmptyString => true
  | String c s' => isPlain c && allPlain s'
  end.


(** ** Vocabulary of the handlers' runs *)

(** The world in which the language model answers [g], all else being
    equal. *)
Definition withModel (w : World) (g : string -> TransferContent) : World :=
  mkWorld (composeState w) (updateRecentMessageState w) (composeContext w)
          g (STRK w) (Math_random w) (getRecipient w) (addRecipient w)
          (isStarkDomain w) (getStarknetAccount w) (decimals w)
          (getAddressFromName w) (transferCall w) (execute w).

Definition isCallback (e : event) : bool :=
  match e with Callback _ => true | _ => false end.

Definition isExecute (e : event) : bool :=
  match e with Execute _ => true | _ => false end.

Definition isAddRecipient (e : event) : bool :=
  match e with AddRecipient _ _ _ => true | _ => false end.

Definition count (p : event -> bool) (t : list event) : nat :=
  List.length (List.filter p t).

(** The content the handler of [transfer.ts] validates once the regular
    expression has found [r0]. *)
Definition giftContent (w : World) (state : option State) (r0 : string)
  : TransferContent :=
  set_amount
    (set_recipient (generatedContent w (currentState w state)) (VString r0))
    (VNumber (randomAmount (Math_random w))).

(** The content the lucky-money handler records and validates once the
    regular expression has found [r0]. *)
Definition luckyContent (w : World) (state : option State) (r0 : string)
  : TransferContent :=
  let content :=
    set_recipient (generatedContent w (currentState w state)) (VString r0) in
  if negb (ToBoolean (amount content)) then
    set_amount content (VNumber (randomAmount (Math_random w)))
  else content.

(** The ways a run of the [try] block can go: an error before the call is
    built, an error from the ERC20 wrapper, an error from the account, or
    an executed transaction. *)
Inductive tryOutcome (w : World) (c : TransferContent) (cb : bool)
  : list event * result bool -> Prop :=
  | NoAccount e :
      getStarknetAccount w = Throw e ->
      tryOutcome w c cb (caught cb e [])
  | NoAmount e :
      decimals w (tokenAddress c) = Throw e \/
      (exists d, decimals w (tokenAddress c) = Ok d /\
                 amountWei (amount c) d = Throw e) ->
      tryOutcome w c cb (caught cb e [Decimals (tokenAddress c)])
  | NoRecipient e :
      snd (resolved w c) = Throw e ->
      tryOutcome w c cb
        (caught cb e (Decimals (tokenAddress c) :: fst (resolved w c)))
  | NoCall e r a :
      snd (resolved w c) = Ok r ->
      transferCall w (tokenAddress c) r a = Throw e ->
      tryOutcome w c cb
        (caught cb e (Decimals (tokenAddress c) :: fst (resolved w c) ++
                      [TransferCall (tokenAddress c) r a]))
  | NotExecuted e r a call :
      snd (resolved w c) = Ok r ->
      transferCall w (tokenAddress c) r a = Ok call ->
      execute w call = Throw e ->
      tryOutcome w c cb
        (caught cb e (Decimals (tokenAddress c) :: fst (resolved w c) ++
                      [TransferCall (tokenAddress c) r a; Execute call]))
  | Executed r a call h :
      snd (resolved w c) = Ok r ->
      transferCall w (tokenAddress c) r a = Ok call ->
      execute w call = Ok h ->
      tryOutcome w c cb
        (Decimals (tokenAddress c) :: fst (resolved w c) ++
         [TransferCall (tokenAddress c) r a; Execute call] ++
         (if cb then [Callback (Transferred (amount c))] else []),
         Ok true).

(** What holds of a run from validation on. *)
Record runFacts (w : World) (cb : bool) (r : list event * result bool)
  : Prop := mkFacts {
  rf_boolean : exists b, snd r = Ok b;
  rf_replies : count isCallback (fst r) = if cb then 1%nat else 0%nat;
  rf_executions : (count isExecute (fst r) <= 1)%nat;
  rf_records : count isAddRecipient (fst r) = 0%nat;
  rf_true : snd r = Ok true <->
            exists call h, In (Execute call) (fst r) /\ execute w call = Ok h;
  rf_built : forall call, In (Execute call) (fst r) ->
             exists tok rcp a, In (TransferCall tok rcp a) (fst r) /\
                               transferCall w tok rcp a = Ok call
}.

(** Leibniz equality of two numbers, decided. *)
Definition number_same (x y : number) : bool :=
  match x, y with
  | NaN, NaN => true
  | Inf s, Inf t => Bool.eqb s t
  | Fin a, Fin b => (Qnum a =? Qnum b) && (Qden a =? Qden b)%positive
  | _, _ => false
  end.

(** [len] consecutive integers from [lo] on. *)
Definition range (lo : Z) (len : nat) : list Z :=
  List.map (fun i => lo + Z.of_nat i) (List.seq 0 len).

(** Reading [n / 1000] written with three decimals gives the double
    nearest to it. *)
Definition fixedReadsBack (n : Z) : bool :=
  number_same (StringToNumber (fixedDigits (n # 1000) 3)) (F (n # 1000)).

(** With 18 decimals, the minor units of [n / 1000] lie between one and
    five tokens and within 500 units of [n * 10^15]. *)
Definition weiInRange (n : Z) : bool :=
  match amountWei (VNumber (F (n # 1000))) 18 with
  | Ok z =>
      (10 ^ 18 <=? z) && (z <=? 5 * 10 ^ 18) &&
      (Z.abs (z - n * 10 ^ 15) <=? 500)
  | Throw _ => false
  end.


(** The doubles that are not negative: a 53-bit numerator times a power
    of two from [2^-1074] on, below [2^1024]. *)
Definition binary64 (x : Q) : Prop :=
  exists a e, 0 <= a < 2 ^ 53 /\ -1074 <= e /\
              (x == inject_Z a * two_pow e)%Q /\ (x < two_pow 1024)%Q.

(** What Number::toString writes as a word or with an exponent: a number
    that is not finite, or one of magnitude [10^21] or more. *)
Definition beyondDigits (x : number) : Prop :=
  match x with
  | Fin y => (ten_pow 21 <= Qabs y)%Q
  | _ => True
  end.


(** ** Sample data *)

Definition aliceAddress : string :=
  "0x069a419C6ebab0a6aA74CA8e0bCFD9b3b17c985901Dc00e9BaD25cbD05e75343".
Definition strkAddress : string :=
  "0x04718f5a0fc34cc1af16a1cdee98ffb20c31f5cd61d6ab07201858f4287c938d".

Definition bothRecipients : TransferContent :=
  mkContent (VString strkAddress) (VString aliceAddress)
            (VString "alice.stark") (VString "1").

Definition zeroAmount : TransferContent :=
  mkContent (VString strkAddress) (VString aliceAddress) VUndefined
            (VNumber (Fin 0)).

Definition notHexToken : string :=
  "0xzzzzzzzzzzzzzzzzzzzzzzzzzzzzzzzzzzzzzzzzzzzzzzzzzzzzzzzzzzzzzzzz".

Definition notHexContent : TransferContent :=
  mkContent (VString notHexToken) (VString aliceAddress) VUndefined
            (VString "1").

Definition shortToken : TransferContent :=
  mkContent (VString "0xabc") (VString aliceAddress) VUndefined (VString "1").

Definition emptyRecipient : TransferContent :=
  mkContent (VString strkAddress) (VString "") VUndefined (VString "1").

Definition quietWorld (recent : string) (content : TransferContent) (d : Z)
  : World :=
  mkWorld (mkState recent "user") (fun st => st) recentMessages
          (fun _ => content) (VString strkAddress) (Fin 0)
          (fun _ _ => false) (fun _ _ _ => true) (fun _ => false)
          (Ok tt) (fun _ => Ok d) (fun _ => Throw (Rejected "unknown name"))
          (fun _ _ a => Ok [a]) (fun _ => Ok "0x7e57"%string).

Definition greeting : string := ("Happy New Year! " ++ aliceAddress)%string.

Definition extracted (a : value) : TransferContent :=
  mkContent VUndefined VUndefined VUndefined a.


(** * Properties *)

(** ** Validation *)

Lemma stringOrNumber_typeof v :
  stringOrNumber v = (is_typeof v "string" || is_typeof v "number").
Proof. destruct v; reflexivity. Qed.

Lemma ToBoolean_nullish v : nullish v = true -> ToBoolean v = false.
Proof. destruct v; simpl; congruence. Qed.

Lemma ToBoolean_string s : s <> EmptyString -> ToBoolean (VString s) = true.
Proof. destruct s; simpl; congruence. Qed.

(** The token check comes first: a content whose token is not of the
    address shape is rejected, never accepted and never an exception. *)
Lemma isTransferContent_token isd c :
  tokenShape (tokenAddress c) = false -> isTransferContent isd c = Ok false.
Proof.
  unfold isTransferContent, tokenShape, addressShape.
  destruct (tokenAddress c) as [| | | |t|]; intros H; try reflexivity.
  rewrite H. simpl. now destruct (negb _).
Qed.

Lemma isTransferContent_amount isd c :
  stringOrNumber (amount c) = false -> isTransferContent isd c = Ok false.
Proof.
  rewrite stringOrNumber_typeof. unfold isTransferContent. intros ->.
  now rewrite andb_false_r.
Qed.

(** What is left of [isTransferContent] once the token and the amount
    have passed. *)
Lemma isTransferContent_recipient isd c :
  tokenShape (tokenAddress c) = true ->
  stringOrNumber (amount c) = true ->
  isTransferContent isd c =
    if negb (is_typeof (recipient c) "string" ||
             is_typeof (starkName c) "string") then Ok false
    else if ToBoolean (recipient c) then
      match recipient c with
      | VString r => Ok (addressShape r)
      | _ => Throw TypeError
      end
    else if ToBoolean (starkName c) then Ok (isd (starkName c))
    else Ok true.
Proof.
  rewrite stringOrNumber_typeof. unfold isTransferContent, tokenShape.
  destruct (tokenAddress c) as [| | | |t|]; try discriminate.
  intros Ht ->. unfold addressShape in Ht.
  change (is_typeof (VString t) "string") with true. rewrite Ht. simpl.
  rewrite andb_true_r.
  destruct (_ || _)%bool; simpl; [|reflexivity].
  destruct (ToBoolean (recipient c)).
  - destruct (recipient c); try reflexivity.
    unfold addressShape.
    now destruct (startsWith s "0x" && _)%bool.
  - destruct (ToBoolean (starkName c)); [|reflexivity].
    now destruct (isd (starkName c)).
Qed.

(** C8: an empty recipient with no usable name passes every check. *)
Theorem empty_recipient_accepted isd c t :
  tokenAddress c = VString t ->
  startsWith t "0x" = true ->
  String.length t = 66%nat ->
  stringOrNumber (amount c) = true ->
  recipient c = VString "" ->
  nullish (starkName c) = true \/ starkName c = VString "" ->
  isTransferContent isd c = Ok true /\
  addressShape "" = false.
Proof.
  intros Ht Hp Hl Ha Hr Hn. split; [|reflexivity].
  rewrite isTransferContent_recipient; trivial.
  - rewrite Hr. simpl.
    destruct Hn as [Hn | ->]; [|reflexivity].
    now rewrite (ToBoolean_nullish _ Hn).
  - rewrite Ht. simpl. unfold addressShape. rewrite Hp, Hl. reflexivity.
Qed.

Lemma empty_recipient_accepted_witness :
  isTransferContent (fun _ => false) emptyRecipient = Ok true /\
  addressShape "" = false.
Proof.
  apply (empty_recipient_accepted (fun _ => false) emptyRecipient strkAddress);
    try reflexivity.
  left; reflexivity.
Defined.

Lemma positiveAmount_one : positiveAmount (VString "1").
Proof.
  split; [reflexivity|]. exists 1%Q. split; [now vm_compute | reflexivity].
Qed.

(** C2, as stated, fails: with both recipient fields supplied, a
    hexadecimal token and the amount ["1"], [isTransferContent] answers
    true whatever the name validator says. *)
Lemma both_recipients_accepted :
  (forall isd, isTransferContent isd bothRecipients = Ok true) /\
  hexAddress strkAddress = true /\
  positiveAmount (amount bothRecipients) /\
  isSet (recipient bothRecipients) /\ isSet (starkName bothRecipients).
Proof.
  repeat split; try reflexivity. apply positiveAmount_one.
Qed.

(** C2, amended: with a well-shaped token and a string or number amount,
    [isTransferContent] rejects a content with neither recipient field;
    a non-empty [recipient] string decides alone, by its shape, whether or
    not a [starkName] comes with it; and a non-empty [starkName] is put to
    the name validator only when [recipient] is missing. *)
Theorem recipient_rule isd c :
  tokenShape (tokenAddress c) = true ->
  stringOrNumber (amount c) = true ->
  (nullish (recipient c) = true -> nullish (starkName c) = true ->
   isTransferContent isd c = Ok false) /\
  (forall r, recipient c = VString r -> r <> EmptyString ->
   isTransferContent isd c = Ok (addressShape r)) /\
  (forall n, nullish (recipient c) = true -> starkName c = VString n ->
   n <> EmptyString ->
   isTransferContent isd c = Ok (isd (VString n))).
Proof.
  intros Ht Ha. rewrite (isTransferContent_recipient isd c Ht Ha).
  split; [|split].
  - intros Hr Hn.
    destruct (recipient c); try discriminate;
      destruct (starkName c); try discriminate; reflexivity.
  - intros r Hr Hne. rewrite Hr.
    change (is_typeof (VString r) "string") with true.
    now rewrite (ToBoolean_string r Hne).
  - intros n Hr Hn Hne. rewrite Hn.
    change (is_typeof (VString n) "string") with true.
    rewrite orb_true_r, (ToBoolean_nullish _ Hr), (ToBoolean_string n Hne).
    reflexivity.
Qed.

Lemma recipient_rule_witness :
  isTransferContent (fun _ => false) bothRecipients = Ok true.
Proof.
  apply (proj1 (proj2 (recipient_rule (fun _ => false) bothRecipients
                         eq_refl eq_refl)) aliceAddress eq_refl).
  discriminate.
Defined.

(** C3, as stated, fails: the amount [0] is accepted. *)
Lemma zero_amount_accepted :
  (forall isd, isTransferContent isd zeroAmount = Ok true) /\
  Number_ (amount zeroAmount) = Fin 0.
Proof. split; reflexivity. Qed.

(** C3, amended: the amount check of [isTransferContent] is a type check.
    An amount that is neither a string nor a number is rejected; among
    strings and numbers the verdict does not depend on the amount, so
    zero, negative and non-finite amounts pass like any other. *)
Theorem amount_type_check isd c :
  (stringOrNumber (amount c) = false -> isTransferContent isd c = Ok false) /\
  (forall a, stringOrNumber (amount c) = true -> stringOrNumber a = true ->
   isTransferContent isd (set_amount c a) = isTransferContent isd c).
Proof.
  split; [apply isTransferContent_amount|].
  intros a Hc Ha.
  destruct (tokenShape (tokenAddress c)) eqn:Ht.
  - now rewrite !isTransferContent_recipient.
  - now rewrite !isTransferContent_token.
Qed.

Lemma amount_type_check_witness :
  isTransferContent (fun _ => false) (set_amount zeroAmount (VNumber NaN)) =
  isTransferContent (fun _ => false) zeroAmount.
Proof.
  apply (proj2 (amount_type_check (fun _ => false) zeroAmount) (VNumber NaN));
    reflexivity.
Defined.

(** C4, as stated, fails: a token of 66 characters that starts with [0x]
    passes although none of its other characters is a hexadecimal digit. *)
Lemma non_hex_token_accepted :
  (forall isd, isTransferContent isd notHexContent = Ok true) /\
  String.length notHexToken = 66%nat /\
  hexAddress notHexToken = false.
Proof. repeat split. Qed.

(** C4, amended: [isTransferContent] returns false unless the token is a
    string of exactly 66 characters that starts with [0x]; the other 64
    characters are not looked at, so that two tokens of that shape get
    the same verdict.  In particular ["0xabc"] is rejected. *)
Theorem token_shape_required isd c :
  (tokenShape (tokenAddress c) = false ->
   isTransferContent isd c = Ok false) /\
  (forall t t', addressShape t = true -> addressShape t' = true ->
   isTransferContent isd (set_tokenAddress c (VString t')) =
   isTransferContent isd (set_tokenAddress c (VString t))).
Proof.
  split.
  - unfold isTransferContent, tokenShape, addressShape.
    destruct (tokenAddress c) as [| | | |t|]; intros H; try reflexivity.
    rewrite H. simpl. now destruct (negb _).
  - intros t t' Ht Ht'.
    destruct (stringOrNumber (amount c)) eqn:Ha.
    + now rewrite !isTransferContent_recipient.
    + now rewrite !isTransferContent_amount.
Qed.

Lemma token_shape_required_witness :
  isTransferContent (fun _ => true) shortToken = Ok false.
Proof.
  apply (proj1 (token_shape_required (fun _ => true) shortToken)).
  reflexivity.
Defined.

Local Open Scope string_scope.

(** ** The regular expression *)

Lemma hexRun_complete h suf :
  allHex h = true -> hexRun (String.length h) (h ++ suf) = Some h.
Proof.
  induction h as [|c h IH]; simpl; [reflexivity|].
  intros [Hc Hh]%andb_prop. now rewrite Hc, (IH Hh).
Qed.

Lemma hexRun_sound n s h :
  hexRun n s = Some h ->
  String.length h = n /\ allHex h = true /\ exists suf, s = h ++ suf.
Proof.
  revert s h. induction n as [|n IH]; simpl; intros s h.
  - intros [= <-]. repeat split. now exists s.
  - destruct s as [|c s]; [discriminate|].
    destruct (isHexDigit c) eqn:Hc; [|discriminate].
    destruct (hexRun n s) as [h'|] eqn:Hrun; [|discriminate].
    intros [= <-]. destruct (IH _ _ Hrun) as (Hl & Hh & suf & ->).
    simpl. rewrite Hc, Hh, Hl. repeat split. now exists suf.
Qed.

Lemma hexAddress_inv m :
  hexAddress m = true ->
  exists h, m = String "0" (String "x" h) /\
            String.length h = 64%nat /\ allHex h = true.
Proof.
  destruct m as [|[[] [] [] [] [] [] [] []] m]; try discriminate.
  destruct m as [|[[] [] [] [] [] [] [] []] h]; try discriminate.
  unfold hexAddress. intros [Hl Hh]%andb_prop. apply Nat.eqb_eq in Hl.
  now exists h.
Qed.

Lemma matchHere_inv s m :
  matchHere s = Some m ->
  exists s' h, s = String "0" (String "x" s') /\ hexRun 64 s' = Some h /\
               m = String "0" (String "x" h).
Proof.
  destruct s as [|[[] [] [] [] [] [] [] []] s]; try discriminate.
  destruct s as [|[[] [] [] [] [] [] [] []] s]; try discriminate.
  unfold matchHere. destruct (hexRun 64 s) as [h|] eqn:Hrun; [|discriminate].
  intros [= <-]. now exists s, h.
Qed.

Lemma matchHere_complete m suf :
  hexAddress m = true -> matchHere (m ++ suf) = Some m.
Proof.
  intros (h & -> & Hl & Hh)%hexAddress_inv.
  change (matchHere (String "0" (String "x" (h ++ suf))) =
          Some (String "0" (String "x" h))).
  unfold matchHere. rewrite <- Hl, (hexRun_complete h suf Hh). reflexivity.
Qed.

Lemma matchHere_sound s m :
  matchHere s = Some m -> hexAddress m = true /\ exists suf, s = m ++ suf.
Proof.
  intros (s' & h & -> & Hrun & ->)%matchHere_inv.
  destruct (hexRun_sound _ _ _ Hrun) as (Hl & Hh & suf & ->).
  split; [|now exists suf].
  unfold hexAddress. now rewrite Hl, Hh.
Qed.

Lemma occursAt_nil s r : occursAt s "" r <-> exists suf, s = r ++ suf.
Proof. reflexivity. Qed.

Lemma occursAt_cons c s pre r :
  occursAt (String c s) (String c pre) r <-> occursAt s pre r.
Proof.
  split; intros [suf H]; exists suf.
  - now injection H.
  - simpl. now rewrite H.
Qed.

Lemma occursAt_inv c s pre r :
  occursAt (String c s) pre r ->
  pre = "" \/ exists pre', pre = String c pre' /\ occursAt s pre' r.
Proof.
  destruct pre as [|c' pre']; [now left|].
  intros [suf H]. right. simpl in H. injection H as <- H.
  exists pre'. split; [reflexivity|]. now exists suf.
Qed.

Lemma regexMatch_cons c s :
  regexMatch (String c s) =
  match matchHere (String c s) with
  | Some m => Some m
  | None => regexMatch s
  end.
Proof. reflexivity. Qed.

Lemma regexMatch_None s : regexMatch s = None <-> noMatch s.
Proof.
  induction s as [|c s IH].
  - split; [|reflexivity]. intros _ pre r [suf H].
    destruct pre; [|discriminate H]. destruct r; [reflexivity|discriminate H].
  - rewrite regexMatch_cons.
    destruct (matchHere (String c s)) as [m|] eqn:Hm.
    + split; [intros [=]|]. intros Hno.
      destruct (matchHere_sound _ _ Hm) as [Hhex Hocc].
      apply occursAt_nil in Hocc. rewrite (Hno _ _ Hocc) in Hhex. discriminate.
    + rewrite IH. split.
      * intros Hno pre r Hocc.
        destruct (occursAt_inv _ _ _ _ Hocc) as [->|(pre' & -> & Hocc')].
        -- destruct (hexAddress r) eqn:Hhex; [|reflexivity].
           destruct Hocc as [suf Hs]. simpl in Hs.
           rewrite Hs, (matchHere_complete r suf Hhex) in Hm. discriminate.
        -- eapply Hno, Hocc'.
      * intros Hno pre r Hocc. apply (Hno (String c pre)).
        now apply occursAt_cons.
Qed.

Lemma regexMatch_Some s r : regexMatch s = Some r -> firstMatch s r.
Proof.
  induction s as [|c s IH].
  - discriminate.
  - rewrite regexMatch_cons.
    destruct (matchHere (String c s)) as [m|] eqn:Hm.
    + intros [= <-]. destruct (matchHere_sound _ _ Hm) as [Hhex Hocc].
      split; [exact Hhex|]. exists "". split; [exact Hocc|].
      intros; simpl; lia.
    + intros Hr. destruct (IH Hr) as (Hhex & pre & Hocc & Hmin).
      split; [exact Hhex|]. exists (String c pre).
      split; [now apply occursAt_cons|].
      intros pre' r' Hocc' Hhex'.
      destruct (occursAt_inv _ _ _ _ Hocc') as [->|(pre'' & -> & Hocc'')].
      * destruct Hocc' as [suf Hs]. simpl in Hs.
        rewrite Hs, (matchHere_complete r' suf Hhex') in Hm. discriminate.
      * simpl. apply le_n_S. now apply (Hmin _ r').
Qed.

(** The leftmost match is unique. *)
Lemma firstMatch_unique s r r' : firstMatch s r -> firstMatch s r' -> r = r'.
Proof.
  intros (Hh & pre & Hocc & Hmin) (Hh' & pre' & Hocc' & Hmin').
  pose proof (Hmin _ _ Hocc' Hh') as L1.
  pose proof (Hmin' _ _ Hocc Hh) as L2.
  destruct Hocc as [suf Hs], Hocc' as [suf' Hs'].
  revert pre' L1 L2 Hs' Hmin'. clear Hmin. revert s Hs.
  induction pre as [|c pre IH]; intros s Hs [|c' pre'] L1 L2 Hs' Hmin';
    simpl in *; try lia.
  - subst s.
    pose proof (matchHere_complete r suf Hh) as E1.
    rewrite Hs', (matchHere_complete r' suf' Hh') in E1. now injection E1.
  - destruct s as [|d s]; [discriminate|].
    injection Hs as -> Hs. injection Hs' as -> Hs'.
    apply (IH s Hs pre'); try lia; trivial.
    intros p q Hq Hhq. specialize (Hmin' (String c' p) q).
    simpl in Hmin'. apply le_S_n, Hmin'; trivial. now apply occursAt_cons.
Qed.

Lemma firstMatch_regexMatch s r : firstMatch s r -> regexMatch s = Some r.
Proof.
  intros H. destruct (regexMatch s) as [r'|] eqn:E.
  - f_equal. exact (firstMatch_unique s r' r (regexMatch_Some s r' E) H).
  - apply regexMatch_None in E. destruct H as (Hh & pre & Hocc & _).
    rewrite (E _ _ Hocc) in Hh. discriminate.
Qed.

Local Close Scope string_scope.

(** ** The [try] block *)

(** [tryTransfer] step by step: each collaborator either answers or sends
    the handler to its [catch] clause. *)
Lemma tryTransfer_run w c cb t :
  tryTransfer w c cb t =
  match getStarknetAccount w with
  | Throw e => caught cb e t
  | Ok _ =>
    let t1 := t ++ [Decimals (tokenAddress c)] in
    match decimals w (tokenAddress c) with
    | Throw e => caught cb e t1
    | Ok d =>
      match amountWei (amount c) d with
      | Throw e => caught cb e t1
      | Ok a =>
        let t2 := t1 ++ fst (resolved w c) in
        match snd (resolved w c) with
        | Throw e => caught cb e t2
        | Ok r =>
          let t3 := t2 ++ [TransferCall (tokenAddress c) r a] in
          match transferCall w (tokenAddress c) r a with
          | Throw e => caught cb e t3
          | Ok call =>
            let t4 := t3 ++ [Execute call] in
            match execute w call with
            | Throw e => caught cb e t4
            | Ok _ =>
              (if cb then t4 ++ [Callback (Transferred (amount c))] else t4,
               Ok true)
            end
          end
        end
      end
    end
  end.
Proof.
  unfold tryTransfer, try_catch, bind, lift, emit, when, ret, caught, resolved.
  destruct (getStarknetAccount w) as [u|]; [|now destruct cb].
  destruct (decimals w (tokenAddress c)) as [d|]; [|now destruct cb].
  destruct (amountWei (amount c) d) as [m|]; [|now destruct cb].
  destruct (nullish (recipient c)); cbn [fst snd].
  - destruct (getAddressFromName w (starkName c)) as [r|]; [|now destruct cb].
    destruct (transferCall w (tokenAddress c) r m) as [call|];
      [|now destruct cb].
    destruct (execute w call); now destruct cb.
  - rewrite app_nil_r.
    destruct (transferCall w (tokenAddress c) (recipient c) m) as [call|];
      [|now destruct cb].
    destruct (execute w call); now destruct cb.
Qed.

Ltac forall_events :=
  cbn [fst app];
  repeat first
    [ apply Forall_nil | apply Forall_cons | apply Forall_app; split
    | assumption | solve [trivial] ].

Lemma tryTransfer_events w c cb :
  Forall (tryEvent w c) (fst (run (tryTransfer w c cb))).
Proof.
  unfold run. rewrite tryTransfer_run. unfold caught.
  assert (Hres : Forall (tryEvent w c) (fst (resolved w c))).
  { unfold resolved. destruct (nullish (recipient c)) eqn:Hn; simpl.
    - repeat constructor. exact Hn.
    - constructor. }
  assert (Hdec : tryEvent w c (Decimals (tokenAddress c))) by reflexivity.
  assert (Hfail : forall e, tryEvent w c (Callback (Failed e)))
    by (intro; exact I).
  assert (Hok : tryEvent w c (Callback (Transferred (amount c))))
    by reflexivity.
  destruct (getStarknetAccount w) as [u|]; [|destruct cb; forall_events].
  destruct (decimals w (tokenAddress c)) as [d|] eqn:Hd; cbn zeta;
    [|destruct cb; forall_events].
  destruct (amountWei (amount c) d) as [a|] eqn:Ha;
    [|destruct cb; forall_events].
  destruct (snd (resolved w c)) as [r|] eqn:Hr;
    [|destruct cb; forall_events].
  assert (Hcall : tryEvent w c (TransferCall (tokenAddress c) r a)).
  { simpl. rewrite Hr. repeat split. now exists d. }
  destruct (transferCall w (tokenAddress c) r a) as [call|] eqn:Hc;
    [|destruct cb; forall_events].
  assert (Hex : tryEvent w c (Execute call)) by (simpl; eauto).
  destruct (execute w call); destruct cb; forall_events.
Qed.

(** The [try] block never throws: its [catch] turns every error into the
    answer [false]. *)
Lemma tryTransfer_returns w c cb t :
  exists t' b, tryTransfer w c cb t = (t', Ok b).
Proof.
  rewrite tryTransfer_run. unfold caught.
  repeat match goal with
         | |- context [match ?x with Ok _ => _ | Throw _ => _ end] =>
             destruct x
         end; cbn zeta; eauto.
Qed.

Lemma validateAndTransfer_accepted w c cb :
  isTransferContent (isStarkDomain w) c = Ok true ->
  validateAndTransfer w c cb = tryTransfer w c cb.
Proof.
  intros H. unfold validateAndTransfer, bind, lift. now rewrite H.
Qed.

Lemma validateAndTransfer_events w c cb :
  Forall (fun e => e = Callback InvalidContent \/ tryEvent w c e)
         (fst (run (validateAndTransfer w c cb))).
Proof.
  unfold validateAndTransfer, run, bind, lift.
  destruct (isTransferContent (isStarkDomain w) c) as [[|]|]; simpl.
  - eapply Forall_impl; [|apply tryTransfer_events]. now right.
  - unfold when, emit, ret. destruct cb; simpl; repeat constructor.
  - constructor.
Qed.

(** C5: for a content that [isTransferContent] accepts, the name service
    is asked only when [recipient] is [null] or missing, and then about
    [starkName]; a [recipient] that is present is the address the
    transfer call is built with, and no name is looked up. *)
Theorem recipient_used_verbatim w c cb :
  isTransferContent (isStarkDomain w) c = Ok true ->
  let trace := fst (run (validateAndTransfer w c cb)) in
  (forall n, In (GetAddressFromName n) trace ->
             nullish (recipient c) = true /\ n = starkName c) /\
  (forall tok r a, In (TransferCall tok r a) trace ->
     if nullish (recipient c)
     then getAddressFromName w (starkName c) = Ok r
     else r = recipient c) /\
  (forall d a,
     getStarknetAccount w = Ok tt ->
     decimals w (tokenAddress c) = Ok d ->
     amountWei (amount c) d = Ok a ->
     if nullish (recipient c)
     then In (GetAddressFromName (starkName c)) trace
     else In (TransferCall (tokenAddress c) (recipient c) a) trace).
Proof.
  intros Hv trace. subst trace. rewrite (validateAndTransfer_accepted _ _ _ Hv).
  pose proof (tryTransfer_events w c cb) as Hev.
  rewrite Forall_forall in Hev. repeat split.
  - now apply (Hev (GetAddressFromName n)).
  - now apply (Hev (GetAddressFromName n)).
  - intros tok r a Hin. destruct (Hev _ Hin) as (_ & Hr & _).
    unfold resolved in Hr. destruct (nullish (recipient c)); simpl in Hr.
    + exact Hr.
    + now injection Hr.
  - intros d a Hacc Hd Ha. unfold run. rewrite tryTransfer_run, Hacc, Hd, Ha.
    unfold resolved, caught. cbn zeta.
    destruct (nullish (recipient c)); cbn [fst snd app].
    + repeat match goal with
             | |- context [match ?x with Ok _ => _ | Throw _ => _ end] =>
                 destruct x
             end; destruct cb; cbn [fst]; rewrite ?in_app_iff; simpl; tauto.
    + repeat match goal with
             | |- context [match ?x with Ok _ => _ | Throw _ => _ end] =>
                 destruct x
             end; destruct cb; cbn [fst]; rewrite ?in_app_iff; simpl; tauto.
Qed.

Lemma recipient_used_verbatim_witness :
  In (TransferCall (VString strkAddress) (VString aliceAddress)
                   1000000000000000000)
     (fst (run (validateAndTransfer
                  (quietWorld greeting (extracted VUndefined) 18)
                  bothRecipients true))).
Proof.
  apply (proj2 (proj2 (recipient_used_verbatim
                         (quietWorld greeting (extracted VUndefined) 18)
                         bothRecipients true eq_refl))
               18 1000000000000000000); vm_compute; reflexivity.
Defined.

(** ** The handlers *)

Lemma validateAndTransfer_addressedTo w c cb r0 :
  recipient c = VString r0 ->
  Forall (addressedTo r0) (fst (run (validateAndTransfer w c cb))).
Proof.
  intros Hr. pose proof (validateAndTransfer_events w c cb) as Hev.
  eapply Forall_impl; [|exact Hev]. cbv beta.
  intros e [->|He]; [exact I|].
  destruct e as [r u a| |n|tok r a| |]; simpl in *; trivial.
  - contradiction.
  - destruct He as [Hn _]. rewrite Hr in Hn. discriminate.
  - destruct He as (_ & Hres & _). unfold resolved in Hres.
    rewrite Hr in Hres. simpl in Hres. now injection Hres.
Qed.

Lemma validateAndTransfer_append w c cb t :
  validateAndTransfer w c cb t =
  (t ++ fst (run (validateAndTransfer w c cb)),
   snd (run (validateAndTransfer w c cb))).
Proof.
  unfold validateAndTransfer, run, bind, lift.
  destruct (isTransferContent (isStarkDomain w) c) as [[|]|]; simpl.
  - rewrite !tryTransfer_run. unfold caught, resolved.
    repeat match goal with
           | |- context [match ?x with Ok _ => _ | Throw _ => _ end] =>
               destruct x
           | |- context [if ?b then _ else _] => destruct b
           end; cbn [fst snd app]; rewrite <- ?app_assoc, ?app_nil_r;
      reflexivity.
  - unfold when, emit, ret. destruct cb; simpl; now rewrite ?app_nil_r.
  - now rewrite app_nil_r.
Qed.

(** C9: without a match in the recent messages either handler returns
    false and calls nobody; with one, what the model extracted as the
    recipient has no bearing on the run, the name service is never asked,
    and whatever is recorded or transferred goes to the leftmost match. *)
Theorem recipient_from_recent_messages w state cb :
  let s := recentMessages (currentState w state) in
  (noMatch s ->
   run (TransferTs.handler w state cb) = ([], Ok false) /\
   run (LuckyMoney.handler w state cb) = ([], Ok false)) /\
  (forall r0, firstMatch s r0 ->
   (forall v,
      run (TransferTs.handler (extractingRecipient w v) state cb) =
      run (TransferTs.handler w state cb) /\
      run (LuckyMoney.handler (extractingRecipient w v) state cb) =
      run (LuckyMoney.handler w state cb)) /\
   Forall (addressedTo r0) (fst (run (TransferTs.handler w state cb))) /\
   Forall (addressedTo r0) (fst (run (LuckyMoney.handler w state cb)))).
Proof.
  intros s. split.
  - intros Hno%regexMatch_None.
    unfold run, TransferTs.handler, LuckyMoney.handler. fold s.
    now rewrite Hno.
  - intros r0 Hr0%firstMatch_regexMatch. split; [|split].
    + intros v. unfold run, TransferTs.handler, LuckyMoney.handler.
      change (currentState (extractingRecipient w v) state)
        with (currentState w state).
      fold s. rewrite Hr0. split; reflexivity.
    + unfold TransferTs.handler. fold s. rewrite Hr0.
      now apply validateAndTransfer_addressedTo.
    + unfold run, LuckyMoney.handler. fold s. rewrite Hr0. cbv zeta.
      match goal with
      | |- context [validateAndTransfer w ?c cb] => set (content := c)
      end.
      assert (Hrc : recipient content = VString r0).
      { subst content. now destruct (negb _). }
      destruct (getRecipient w _ _); [constructor|].
      unfold bind, emit. cbn [app].
      destruct (negb (addRecipient w _ _ _)).
      * repeat constructor. exact Hrc.
      * rewrite validateAndTransfer_append. cbn [fst app].
        constructor; [exact Hrc|].
        now apply validateAndTransfer_addressedTo.
Qed.

Lemma recipient_from_recent_messages_witness :
  run (TransferTs.handler (quietWorld "Happy New Year!" (extracted VUndefined) 18)
                          None true) = ([], Ok false) /\
  run (LuckyMoney.handler (quietWorld "Happy New Year!" (extracted VUndefined) 18)
                          None true) = ([], Ok false).
Proof.
  apply (proj1 (recipient_from_recent_messages
                  (quietWorld "Happy New Year!" (extracted VUndefined) 18)
                  None true)).
  apply regexMatch_None. reflexivity.
Defined.

(** The model names one address, the message another: the transfer goes
    to the one in the message. *)
Example message_address_wins :
  run (TransferTs.handler
         (quietWorld greeting
            (mkContent VUndefined (VString strkAddress) VUndefined VUndefined)
            18)
         None true) =
  ([Decimals (VString strkAddress);
    TransferCall (VString strkAddress) (VString aliceAddress)
                 1000000000000000000;
    Execute [1000000000000000000];
    Callback (Transferred (VNumber (Fin 1)))], Ok true).
Proof. vm_compute. reflexivity. Qed.

Lemma BigInt_non_finite x :
  (forall q, x <> Fin q) -> BigInt (Number_toString x) = Throw SyntaxError.
Proof.
  destruct x as [|[|]|q]; intros H; try reflexivity. now elim (H q).
Qed.

(** Once the account, the decimals and the conversion have answered, the
    handler asks for a transfer call, whatever the amount. *)
Lemma tryTransfer_asks w c cb d a :
  getStarknetAccount w = Ok tt ->
  decimals w (tokenAddress c) = Ok d ->
  amountWei (amount c) d = Ok a ->
  nullish (recipient c) = false ->
  In (TransferCall (tokenAddress c) (recipient c) a)
     (fst (run (tryTransfer w c cb))).
Proof.
  intros Hacc Hd Ha Hr. unfold run.
  rewrite tryTransfer_run, Hacc, Hd, Ha. unfold resolved, caught.
  rewrite Hr. cbn [fst snd app].
  repeat match goal with
         | |- context [match ?x with Ok _ => _ | Throw _ => _ end] =>
             destruct x
         end; destruct cb; cbn [fst]; rewrite ?in_app_iff; simpl; tauto.
Qed.

(** C6, as stated, fails: the model extracts the amount ["-1"], the token
    has no decimals, and the handler builds and executes a transfer of
    [-1] and returns true.  Whatever the ERC20 wrapper makes of it, the
    conversion itself lets the negative amount through. *)
Lemma negative_amount_transferred :
  amountInteger (VString "-1") 0 = Fin (-1) /\
  run (LuckyMoney.handler
         (quietWorld greeting (extracted (VString "-1")) 0) None true) =
  ([AddRecipient (VString aliceAddress) "user" (VString "-1");
    Decimals (VString strkAddress);
    TransferCall (VString strkAddress) (VString aliceAddress) (-1);
    Execute [-1];
    Callback (Transferred (VString "-1"))], Ok true) /\
  (forall w c cb,
     amount c = VString "-1" ->
     getStarknetAccount w = Ok tt ->
     decimals w (tokenAddress c) = Ok 0 ->
     nullish (recipient c) = false ->
     In (TransferCall (tokenAddress c) (recipient c) (-1))
        (fst (run (tryTransfer w c cb)))).
Proof.
  split; [vm_compute; reflexivity|]. split; [vm_compute; reflexivity|].
  intros w c cb Hamount Hacc Hd Hr.
  apply (tryTransfer_asks w c cb 0 (-1)); trivial.
  rewrite Hamount. vm_compute. reflexivity.
Qed.

(** C6, amended: the [try] block always ends with a boolean, true only
    after [execute] has succeeded; and when the computed amount is not
    finite ([NaN] or an infinity), [BigInt] throws a SyntaxError on its
    rendering, so that the block answers false, hands the error to the
    callback, and neither builds nor executes a transfer call. *)
Theorem non_finite_amount_fails w c cb :
  (exists t b,
     run (tryTransfer w c cb) = (t, Ok b) /\
     (b = true -> exists call h, In (Execute call) t /\
                                 execute w call = Ok h)) /\
  (forall d,
     getStarknetAccount w = Ok tt ->
     decimals w (tokenAddress c) = Ok d ->
     (forall q, amountInteger (amount c) d <> Fin q) ->
     run (tryTransfer w c cb) =
     (if cb then [Decimals (tokenAddress c); Callback (Failed SyntaxError)]
      else [Decimals (tokenAddress c)], Ok false)).
Proof.
  split.
  - unfold run. rewrite tryTransfer_run. unfold caught.
    repeat match goal with
           | |- context [match ?x with Ok _ => _ | Throw _ => _ end] =>
               destruct x eqn:?
           end; cbn zeta; do 2 eexists; (split; [reflexivity|]);
      try discriminate.
    intros _. do 2 eexists. split; [|eassumption].
    destruct cb; rewrite ?in_app_iff; simpl; tauto.
  - intros d Hacc Hd Hnf. unfold run. rewrite tryTransfer_run, Hacc, Hd.
    unfold amountWei. rewrite (BigInt_non_finite _ Hnf). reflexivity.
Qed.

Lemma non_finite_amount_fails_witness :
  run (tryTransfer (quietWorld greeting (extracted VUndefined) 18)
                   (mkContent (VString strkAddress) (VString aliceAddress)
                              VUndefined (VString "a lot"))
                   true) =
  ([Decimals (VString strkAddress); Callback (Failed SyntaxError)], Ok false).
Proof.
  apply (proj2 (non_finite_amount_fails
                  (quietWorld greeting (extracted VUndefined) 18)
                  (mkContent (VString strkAddress) (VString aliceAddress)
                             VUndefined (VString "a lot"))
                  true) 18); try reflexivity.
  intros q. vm_compute. discriminate.
Defined.

(** ** Binary64 rounding *)

Lemma two_pow_pos e : (0 < two_pow e)%Q.
Proof. apply Qpower_0_lt. reflexivity. Qed.

Lemma two_pow_nonzero e : ~ (two_pow e == 0)%Q.
Proof. pose proof (two_pow_pos e). lra. Qed.

Lemma two_pow_plus a b : (two_pow (a + b) == two_pow a * two_pow b)%Q.
Proof. apply Qpower_plus. discriminate. Qed.

Lemma two_pow_Z e : 0 <= e -> (two_pow e == inject_Z (2 ^ e))%Q.
Proof. intros H. unfold two_pow. now rewrite (Zpower_Qpower 2 e H). Qed.

Lemma two_pow_lt_inv a b : (two_pow a < two_pow b)%Q -> a < b.
Proof. intros H. apply (Qpower_lt_compat_l_inv 2); [exact H|reflexivity]. Qed.

Lemma two_pow_le a b : a <= b -> (two_pow a <= two_pow b)%Q.
Proof. intros H. apply Qpower_le_compat_l; [exact H|discriminate]. Qed.

(** [ilog2Q] never overestimates. *)
Lemma ilog2Q_le q : (0 < q)%Q -> (two_pow (ilog2Q q) <= q)%Q.
Proof.
  intros Hq. unfold ilog2Q.
  set (g := Z.log2 (Qnum q) - Z.log2 (Z.pos (Qden q))).
  destruct (Qle_bool (two_pow g) q) eqn:E; [now apply Qle_bool_iff|].
  destruct q as [n d]. unfold g. cbn [Qnum Qden] in *.
  assert (Hn : 0 < n) by (unfold Qlt in Hq; simpl in Hq; lia).
  destruct (Z.log2_spec n Hn) as [Ln _].
  destruct (Z.log2_spec (Z.pos d) (Pos2Z.is_pos d)) as [_ Ld].
  pose proof (Z.log2_nonneg n). pose proof (Z.log2_nonneg (Z.pos d)).
  replace (Z.log2 n - Z.log2 (Z.pos d) - 1)
    with (Z.log2 n - (Z.log2 (Z.pos d) + 1)) by ring.
  unfold two_pow. rewrite Qpower_minus by discriminate.
  fold (two_pow (Z.log2 n)) (two_pow (Z.log2 (Z.pos d) + 1)).
  rewrite !two_pow_Z by lia.
  apply Qle_shift_div_r.
  - change 0%Q with (inject_Z 0). rewrite <- Zlt_Qlt. lia.
  - unfold Qle, Qmult, inject_Z. cbn [Qnum Qden].
    rewrite !Z.mul_1_r, Pos.mul_1_r. nia.
Qed.

Lemma round_half_even_Z s z : (s == inject_Z z)%Q -> round_half_even s = z.
Proof.
  intros H. unfold round_half_even.
  rewrite (Qfloor_comp _ _ H), Qfloor_Z.
  assert (L : Qcompare (s - inject_Z z) (1 # 2) = Lt)
    by (apply -> Qlt_alt; rewrite H; lra).
  now rewrite L.
Qed.

(** A rational on the binary64 grid is its own rounding. *)
Lemma F_exact q a e :
  0 <= a < 2 ^ 53 -> -1074 <= e ->
  (q == inject_Z a * two_pow e)%Q -> (q < two_pow 1024)%Q ->
  F q = Fin (Qred q).
Proof.
  intros Ha He Hq Hmax. unfold F.
  destruct (Qeq_bool q 0) eqn:E0.
  - apply Qeq_bool_iff in E0. f_equal. symmetry.
    exact (Qred_complete _ _ E0).
  - apply Qeq_bool_neq in E0.
    assert (Ha' : 0 < a).
    { destruct (Z.eq_dec a 0) as [->|]; [|lia]. elim E0. rewrite Hq. ring. }
    assert (Hpos : (0 < q)%Q).
    { rewrite Hq. apply Qmult_lt_0_compat; [|apply two_pow_pos].
      change 0%Q with (inject_Z 0). rewrite <- Zlt_Qlt. lia. }
    assert (Habs : Qabs q = q).
    { destruct q as [n d]. unfold Qabs. f_equal.
      unfold Qlt in Hpos. simpl in Hpos. lia. }
    rewrite Habs.
    assert (Hle : Qle_bool 0 q = true) by (apply Qle_bool_iff; lra).
    rewrite Hle.
    set (u := ulp_exp q).
    assert (Hu : u <= e).
    { unfold u, ulp_exp. apply Z.max_lub; [lia|].
      pose proof (ilog2Q_le q Hpos) as L.
      assert (Lt53 : (two_pow (ilog2Q q) < two_pow (53 + e))%Q).
      { eapply Qle_lt_trans; [exact L|]. rewrite Hq, two_pow_plus.
        apply Qmult_lt_compat_r; [apply two_pow_pos|].
        rewrite two_pow_Z by lia. rewrite <- Zlt_Qlt. lia. }
      apply two_pow_lt_inv in Lt53. lia. }
    assert (Hs : (q / two_pow u == inject_Z (a * 2 ^ (e - u)))%Q).
    { rewrite Hq, inject_Z_mult, <- two_pow_Z by lia.
      unfold two_pow at 3. rewrite Qpower_minus by discriminate.
      fold (two_pow e) (two_pow u). field. apply two_pow_nonzero. }
    rewrite (round_half_even_Z _ _ Hs).
    assert (Hr : (inject_Z (a * 2 ^ (e - u)) * two_pow u == q)%Q).
    { rewrite <- Hs. field. apply two_pow_nonzero. }
    assert (Hov : Qle_bool (two_pow 1024)
                    (inject_Z (a * 2 ^ (e - u)) * two_pow u) = false).
    { apply not_true_is_false. intros E.
      apply Qle_bool_iff in E. rewrite Hr in E. lra. }
    rewrite Hov. f_equal. exact (Qred_complete _ _ Hr).
Qed.

Lemma Qred_inject_Z z : Qred (inject_Z z) = inject_Z z.
Proof.
  pose proof (Qred_correct (inject_Z z)) as E.
  pose proof (gcd_Qred (inject_Z z)) as G.
  destruct (Qred (inject_Z z)) as [n d]. unfold Qeq, inject_Z in *.
  cbn [Qnum Qden] in *. rewrite Z.mul_1_r in E. subst n.
  rewrite Z.gcd_comm, (Z.mul_comm z), Z.gcd_mul_diag_l in G by lia.
  now replace d with 1%positive by lia; rewrite Z.mul_1_r.
Qed.

Lemma below_overflow z : z < 2 ^ 53 -> (inject_Z z < two_pow 1024)%Q.
Proof.
  intros Hz. rewrite two_pow_Z by lia. rewrite <- Zlt_Qlt.
  assert (2 ^ 53 < 2 ^ 1024) by (apply Z.pow_lt_mono_r; lia). lia.
Qed.

Lemma ten_pow_pos e : (0 < ten_pow e)%Q.
Proof. apply Qpower_0_lt. reflexivity. Qed.

Lemma ten_pow_nonzero e : ~ (ten_pow e == 0)%Q.
Proof. pose proof (ten_pow_pos e). lra. Qed.

Lemma ten_pow_Z e : 0 <= e -> (ten_pow e == inject_Z (10 ^ e))%Q.
Proof. intros H. unfold ten_pow. now rewrite (Zpower_Qpower 10 e H). Qed.

Lemma round_half_even_floor s : Qfloor s <= round_half_even s.
Proof.
  unfold round_half_even.
  destruct (Qcompare _ _); [destruct (Z.even _)| |]; lia.
Qed.

Lemma inject_Z_lt_0 z : 0 < z -> (0 < inject_Z z)%Q.
Proof. intros H. change 0%Q with (inject_Z 0). now rewrite <- Zlt_Qlt. Qed.

(** From [2^53] on, roundings stay at or above [2^53]. *)
Lemma F_large q x :
  (two_pow 53 <= q)%Q -> (x < two_pow 53)%Q ->
  number_eqb (F q) (Fin x) = false.
Proof.
  intros Hq Hx. pose proof (two_pow_pos 53) as P53.
  assert (Hpos : (0 < q)%Q) by lra.
  unfold F.
  assert (E0 : Qeq_bool q 0 = false).
  { apply not_true_is_false. intros E. apply Qeq_bool_iff in E. lra. }
  rewrite E0.
  assert (Habs : Qabs q = q).
  { destruct q as [n d]. unfold Qabs. f_equal.
    unfold Qlt in Hpos. simpl in Hpos. lia. }
  rewrite Habs.
  assert (Hle : Qle_bool 0 q = true) by (apply Qle_bool_iff; lra).
  rewrite Hle.
  set (u := ulp_exp q). set (m := round_half_even (q / two_pow u)).
  assert (Hr : (two_pow 53 <= inject_Z m * two_pow u)%Q).
  { pose proof (round_half_even_floor (q / two_pow u)) as Hm. fold m in Hm.
    pose proof (two_pow_pos u) as Pu.
    destruct (Z_le_gt_dec u 53) as [Hu|Hu].
    - assert (Hf : 2 ^ (53 - u) <= Qfloor (q / two_pow u)).
      { rewrite <- (Qfloor_Z (2 ^ (53 - u))). apply Qfloor_resp_le.
        rewrite <- two_pow_Z by lia. unfold two_pow at 1.
        rewrite Qpower_minus by discriminate. fold (two_pow 53) (two_pow u).
        apply Qmult_le_compat_r; [exact Hq|].
        apply Qlt_le_weak, Qinv_lt_0_compat, Pu. }
      assert (Hm' : (inject_Z (2 ^ (53 - u)) <= inject_Z m)%Q)
        by (rewrite <- Zle_Qle; lia).
      rewrite <- two_pow_Z in Hm' by lia.
      setoid_replace (two_pow 53) with (two_pow (53 - u) * two_pow u)%Q.
      + apply Qmult_le_compat_r; [exact Hm'|lra].
      + rewrite <- two_pow_plus. now replace (53 - u + u) with 53 by ring.
    - assert (Eu : u = ilog2Q q - 52) by (unfold u, ulp_exp in *; lia).
      pose proof (ilog2Q_le q Hpos) as L.
      assert (Hf : 2 ^ 52 <= Qfloor (q / two_pow u)).
      { rewrite <- (Qfloor_Z (2 ^ 52)). apply Qfloor_resp_le.
        rewrite <- two_pow_Z by lia.
        apply Qle_shift_div_l; [exact Pu|].
        rewrite <- two_pow_plus. now replace (52 + u) with (ilog2Q q) by lia. }
      assert (Hm' : (inject_Z (2 ^ 52) <= inject_Z m)%Q)
        by (rewrite <- Zle_Qle; lia).
      rewrite <- two_pow_Z in Hm' by lia.
      apply Qle_trans with (two_pow 52 * two_pow u)%Q.
      + rewrite <- two_pow_plus. apply two_pow_le. lia.
      + apply Qmult_le_compat_r; [exact Hm'|lra]. }
  destruct (Qle_bool (two_pow 1024) _); [reflexivity|].
  cbn [number_eqb]. apply not_true_is_false. intros E.
  apply Qeq_bool_iff in E. rewrite Qred_correct in E. lra.
Qed.

(** An integer that rounds to an integer below [2^53] is that integer. *)
Lemma F_int_inj q c z :
  (q == inject_Z c)%Q -> 0 <= c -> 0 <= z < 2 ^ 53 ->
  number_eqb (F q) (Fin (inject_Z z)) = true -> c = z.
Proof.
  intros Hq Hc Hz E.
  destruct (Z_lt_ge_dec c (2 ^ 53)) as [Hlt|Hge].
  - rewrite (F_exact q c 0) in E; try lia.
    + cbn [number_eqb] in E. apply Qeq_bool_iff in E.
      rewrite Qred_correct, Hq in E. now apply inject_Z_injective.
    + rewrite Hq. unfold two_pow. simpl. ring.
    + rewrite Hq. apply below_overflow. lia.
  - rewrite F_large in E; [discriminate| |].
    + rewrite Hq, two_pow_Z by lia. rewrite <- Zle_Qle. lia.
    + rewrite two_pow_Z by lia. rewrite <- Zlt_Qlt. lia.
Qed.

(** ** Rendering an integer below [2^53] and reading it back *)

Lemma digitCountAux_bounds fuel z :
  1 <= z -> 1 <= digitCountAux fuel z /\ 10 ^ (digitCountAux fuel z - 1) <= z.
Proof.
  revert z. induction fuel as [|fuel IH]; intros z Hz; cbn [digitCountAux].
  - simpl. lia.
  - destruct (Z.ltb_spec z 10) as [Hlt|Hge]; [simpl; lia|].
    assert (Hq : 1 <= z / 10) by (apply Z.div_le_lower_bound; lia).
    destruct (IH (z / 10) Hq) as [H1 H2]. split; [lia|].
    replace (1 + digitCountAux fuel (z / 10) - 1)
      with (Z.succ (digitCountAux fuel (z / 10) - 1)) by lia.
    rewrite Z.pow_succ_r by lia.
    pose proof (Z.mul_div_le z 10). lia.
Qed.

Lemma decimalExponent_int z :
  1 <= z < 2 ^ 53 ->
  decimalExponent (inject_Z z) = digitCount z /\ 1 <= digitCount z <= 16.
Proof.
  intros Hz. unfold decimalExponent.
  assert (E : Qle_bool 1 (inject_Z z) = true).
  { apply Qle_bool_iff. change 1%Q with (inject_Z 1). rewrite <- Zle_Qle. lia. }
  rewrite E, Qfloor_Z. split; [reflexivity|].
  unfold digitCount.
  destruct (digitCountAux_bounds (Z.to_nat (Z.log2 z)) z) as [H1 H2]; [lia|].
  split; [exact H1|].
  destruct (Z_le_gt_dec (digitCountAux (Z.to_nat (Z.log2 z)) z) 16) as [|Hgt];
    [assumption|].
  assert (10 ^ 16 <= 10 ^ (digitCountAux (Z.to_nat (Z.log2 z)) z - 1))
    by (apply Z.pow_le_mono_r; lia).
  assert (2 ^ 53 < 10 ^ 16) by reflexivity. lia.
Qed.

Section Shortest.

Variable z : Z.
Hypothesis Hz : 1 <= z < 2 ^ 53.
Variable n0 : Z.

(** A candidate with at most [n0] digits denotes an integer, so it rounds
    to [z] only when it is [z]. *)
Lemma roundsTo_int n k s :
  k <= n -> 0 <= s ->
  roundsTo (inject_Z z) n k s = true -> s * 10 ^ (n - k) = z.
Proof.
  intros Hk Hs E. unfold roundsTo in E.
  apply (F_int_inj _ (s * 10 ^ (n - k)) z) in E; trivial; try lia.
  now rewrite inject_Z_mult, ten_pow_Z by lia.
Qed.

Lemma enclosing_facts k :
  1 <= k <= n0 ->
  let '(c1, c2) := enclosing (inject_Z z) n0 k in
  (n0 <= fst c1 <= n0 + 1 /\ 0 <= snd c1) /\
  (n0 <= fst c2 <= n0 + 1 /\ 0 <= snd c2).
Proof.
  intros Hk. unfold enclosing.
  set (lo := Qfloor (inject_Z z / ten_pow (n0 - k))).
  assert (Hlo : 0 <= lo).
  { unfold lo. rewrite <- (Qfloor_Z 0). apply Qfloor_resp_le.
    apply Qle_shift_div_l; [apply ten_pow_pos|].
    rewrite Qmult_0_l. apply Qlt_le_weak, inject_Z_lt_0. lia. }
  cbn [fst snd]. split; [lia|].
  destruct (lo + 1 =? 10 ^ k); cbn [fst snd]; split; lia.
Qed.

Lemma enclosing_last :
  1 <= n0 ->
  roundsTo (inject_Z z) (fst (fst (enclosing (inject_Z z) n0 n0))) n0
           (snd (fst (enclosing (inject_Z z) n0 n0))) = true.
Proof.
  intros Hn. unfold enclosing. cbn [fst snd]. rewrite Z.sub_diag.
  assert (E : Qfloor (inject_Z z / ten_pow 0) = z).
  { rewrite <- (Qfloor_Z z) at 2. apply Qfloor_comp.
    change (ten_pow 0) with 1%Q. field. }
  rewrite E. unfold roundsTo. rewrite Z.sub_diag.
  change (ten_pow 0) with 1%Q.
  rewrite (F_exact _ z 0); try lia.
  - cbn [number_eqb]. apply Qeq_bool_iff. rewrite Qred_correct. ring.
  - change (two_pow 0) with 1%Q. ring.
  - rewrite Qmult_1_r. apply below_overflow. lia.
Qed.

Lemma nearer_either x k c1 c2 :
  nearer x k c1 c2 = c1 \/ nearer x k c1 c2 = c2.
Proof.
  unfold nearer. destruct (Qcompare _ _); [destruct (Z.even _)| |]; auto.
Qed.

Lemma shortestFrom_int fuel k :
  1 <= k <= n0 -> n0 - k <= Z.of_nat fuel ->
  let '(n, k', s) := shortestFrom fuel (inject_Z z) n0 k in
  k' <= n /\ n <= n0 + 1 /\ s * 10 ^ (n - k') = z.
Proof.
  revert k. induction fuel as [|fuel IH]; intros k Hk Hfuel.
  - assert (k = n0) by lia. subst k.
    pose proof (enclosing_last ltac:(lia)) as Hlast.
    pose proof (enclosing_facts n0 Hk) as Hfacts.
    cbn [shortestFrom].
    destruct (enclosing (inject_Z z) n0 n0) as [c1 c2].
    cbn [fst snd] in Hlast. rewrite Hlast. cbn [andb].
    destruct Hfacts as [[F1 S1] [F2 S2]].
    destruct (roundsTo (inject_Z z) (fst c2) n0 (snd c2)) eqn:E2.
    + destruct (nearer_either (inject_Z z) n0 c1 c2) as [-> | ->];
        repeat split; try lia; apply roundsTo_int; trivial; lia.
    + repeat split; try lia. apply roundsTo_int; trivial; lia.
  - pose proof (enclosing_facts k Hk) as Hfacts.
    cbn [shortestFrom].
    destruct (enclosing (inject_Z z) n0 k) as [c1 c2] eqn:Eenc.
    destruct Hfacts as [[F1 S1] [F2 S2]].
    destruct (roundsTo (inject_Z z) (fst c1) k (snd c1)) eqn:E1;
      destruct (roundsTo (inject_Z z) (fst c2) k (snd c2)) eqn:E2;
      cbn [andb].
    + destruct (nearer_either (inject_Z z) k c1 c2) as [-> | ->];
        repeat split; try lia; apply roundsTo_int; trivial; lia.
    + repeat split; try lia. apply roundsTo_int; trivial; lia.
    + repeat split; try lia. apply roundsTo_int; trivial; lia.
    + destruct (Z.eq_dec k n0) as [->|Hne].
      * pose proof (enclosing_last ltac:(lia)) as Hlast.
        rewrite Eenc in Hlast. cbn [fst snd] in Hlast. congruence.
      * apply IH; lia.
Qed.

End Shortest.

Lemma positive_toString_int z :
  1 <= z < 2 ^ 53 -> positive_toString (inject_Z z) = digitsOf z.
Proof.
  intros Hz. unfold positive_toString, shortest.
  destruct (decimalExponent_int z Hz) as [-> Hn].
  pose proof (shortestFrom_int z Hz (digitCount z) 16 1) as H.
  destruct (shortestFrom 16 (inject_Z z) (digitCount z) 1) as [[n k] s].
  destruct H as (H1 & H2 & H3); [lia|simpl; lia|].
  assert (E : ((k <=? n) && (n <=? 21))%bool = true).
  { apply andb_true_intro. split; [apply Z.leb_le|apply Z.leb_le]; lia. }
  rewrite E. now rewrite H3.
Qed.

Ltac each_char c := destruct c as [[] [] [] [] [] [] [] []].

Lemma isPlain_not_white c : isPlain c = true -> isWhiteSpace c = false.
Proof. each_char c; intros H; try reflexivity; discriminate H. Qed.

Lemma isDigit_isPlain c : isDigit c = true -> isPlain c = true.
Proof. unfold isPlain. now intros ->. Qed.

Lemma allDigits_allPlain s : allDigits s = true -> allPlain s = true.
Proof.
  induction s as [|c s IH]; simpl; [reflexivity|].
  intros [Hc Hs]%andb_prop. now rewrite (isDigit_isPlain c Hc), IH.
Qed.

Lemma allPlain_app s t :
  allPlain (s ++ t) = (allPlain s && allPlain t)%bool.
Proof.
  induction s as [|c s IH]; simpl; [reflexivity|].
  now rewrite IH, andb_assoc.
Qed.

Lemma trimStart_plain s : allPlain s = true -> trimStart s = s.
Proof.
  destruct s as [|c s]; simpl; [reflexivity|].
  intros [Hc _]%andb_prop. now rewrite (isPlain_not_white c Hc).
Qed.

Lemma trimEnd_plain s : allPlain s = true -> trimEnd s = s.
Proof.
  induction s as [|c s IH]; simpl; [reflexivity|].
  intros [Hc Hs]%andb_prop.
  now rewrite (isPlain_not_white c Hc), (IH Hs).
Qed.

Lemma trim_plain s : allPlain s = true -> trim s = s.
Proof.
  intros H. unfold trim. rewrite (trimStart_plain s H). now apply trimEnd_plain.
Qed.

Lemma isPlain_not_prefix_letter p :
  isPlain p = true ->
  ((p =? "x") || (p =? "X"))%char = false /\
  ((p =? "o") || (p =? "O"))%char = false /\
  ((p =? "b") || (p =? "B"))%char = false.
Proof. each_char p; intros H; try (repeat split; reflexivity); discriminate H. Qed.

Lemma nonDecimalLiteral_plain s :
  allPlain s = true -> nonDecimalLiteral s = None.
Proof.
  destruct s as [|c0 [|p [|c s]]]; try reflexivity;
    try (each_char c0; reflexivity).
  cbn [allPlain]. intros [_ [Hp _]%andb_prop]%andb_prop.
  destruct (isPlain_not_prefix_letter p Hp) as (Hx & Ho & Hb).
  each_char c0; try reflexivity.
  unfold nonDecimalLiteral. now rewrite Hx, Ho, Hb.
Qed.

Lemma allDigits_string_of_uint u :
  allDigits (NilEmpty.string_of_uint u) = true.
Proof. induction u; simpl; trivial. Qed.

Lemma allDigits_digitsOf z : allDigits (digitsOf z) = true.
Proof.
  unfold digitsOf, NilZero.string_of_uint.
  destruct (N.to_uint (Z.to_N z)); try reflexivity;
    apply (allDigits_string_of_uint (_ _)).
Qed.

Lemma digitsOf_cons z : exists c t, digitsOf z = String c t.
Proof.
  unfold digitsOf, NilZero.string_of_uint.
  destruct (N.to_uint (Z.to_N z)); simpl; eauto.
Qed.

Lemma N_to_uint_nonnil n : N.to_uint n <> Nil.
Proof.
  destruct n as [|p]; [discriminate|]. apply Unsigned.to_uint_nonnil.
Qed.

Lemma parseDigits_digitsOf z : 0 <= z -> parseDigits (digitsOf z) = Some z.
Proof.
  intros Hz. unfold parseDigits, digitsOf.
  rewrite NilZero.usu by apply N_to_uint_nonnil. cbn [option_map].
  now rewrite DecimalN.Unsigned.of_to, Z2N.id.
Qed.

Lemma BigInt_digitsOf z : 0 <= z -> BigInt (digitsOf z) = Ok z.
Proof.
  intros Hz. unfold BigInt.
  pose proof (allDigits_allPlain _ (allDigits_digitsOf z)) as Hp.
  rewrite (trim_plain _ Hp), (nonDecimalLiteral_plain _ Hp).
  pose proof (allDigits_digitsOf z) as Hd.
  destruct (digitsOf_cons z) as (c & t & E).
  pose proof (parseDigits_digitsOf z Hz) as Hparse.
  rewrite E in *. cbn [allDigits] in Hd. apply andb_prop in Hd as [Hc _].
  change ((String c t =? "")%string) with false. cbv iota.
  revert Hc Hparse. each_char c; intros Hc Hparse; try discriminate Hc;
    now rewrite Hparse.
Qed.

(** [BigInt(x.toString())] gives back an integer-valued [x] below [2^53]. *)
Lemma BigInt_toString z :
  0 <= z < 2 ^ 53 -> BigInt (Number_toString (Fin (inject_Z z))) = Ok z.
Proof.
  intros Hz. destruct (Z.eq_dec z 0) as [->|Hne]; [reflexivity|].
  unfold Number_toString.
  assert (E0 : is_zero (inject_Z z) = false).
  { apply not_true_is_false. intros E. apply Qeq_bool_iff in E.
    apply (inject_Z_injective z 0) in E. lia. }
  assert (En : is_neg (inject_Z z) = false).
  { unfold is_neg. apply negb_false_iff, Qle_bool_iff.
    change 0%Q with (inject_Z 0). rewrite <- Zle_Qle. lia. }
  rewrite E0, En, positive_toString_int by lia.
  apply BigInt_digitsOf. lia.
Qed.

(** ** Reading a decimal literal *)

Lemma spanDigits_all s : allDigits s = true -> spanDigits s = (s, EmptyString).
Proof.
  induction s as [|c s IH]; simpl; [reflexivity|].
  intros [Hc Hs]%andb_prop. now rewrite Hc, (IH Hs).
Qed.

Lemma spanDigits_point ip rest :
  allDigits ip = true ->
  spanDigits (ip ++ String "." rest) = (ip, String "." rest).
Proof.
  induction ip as [|c s IH]; simpl; [reflexivity|].
  intros [Hc Hs]%andb_prop. now rewrite Hc, (IH Hs).
Qed.

Lemma string_app_nil (s : string) : (s ++ "")%string = s.
Proof. induction s as [|c s IH]; simpl; [reflexivity|now rewrite IH]. Qed.

Lemma not_Infinity c t :
  isDigit c = true -> (String c t =? "Infinity")%string = false.
Proof. each_char c; intros H; try reflexivity; discriminate H. Qed.

Lemma StrUnsignedDecimalLiteral_literal ip fp :
  allDigits ip = true -> ip <> EmptyString -> allDigits fp = true ->
  exists q, StrUnsignedDecimalLiteral (decimalLiteral ip fp) = Some (F q) /\
            (q == literalValue ip fp)%Q.
Proof.
  intros Hip Hne Hfp. destruct ip as [|c ip]; [now elim Hne|].
  pose proof Hip as Hip'. cbn [allDigits] in Hip'.
  apply andb_prop in Hip' as [Hc _].
  unfold StrUnsignedDecimalLiteral, literalValue.
  destruct fp as [|f fp].
  - cbn [decimalLiteral]. rewrite (not_Infinity c ip Hc).
    rewrite (spanDigits_all _ Hip). cbv iota.
    change ((String c ip =? "")%string) with false. cbv iota.
    cbn [parseExponent]. eexists. split; [reflexivity|].
    rewrite string_app_nil. change (ten_pow 0) with 1%Q.
    change (ten_pow (Z.of_nat (String.length ""))) with 1%Q. field.
  - cbn [decimalLiteral].
    change ((String c ip ++ "." ++ String f fp)%string)
      with (String c (ip ++ String "." (String f fp))).
    rewrite (not_Infinity c _ Hc).
    change (String c (ip ++ String "." (String f fp)))
      with ((String c ip ++ String "." (String f fp))%string).
    rewrite (spanDigits_point _ _ Hip). cbv iota.
    rewrite (spanDigits_all _ Hfp).
    change (((String c ip ++ String f fp)%string =? "")%string) with false.
    cbv iota. cbn [parseExponent]. eexists. split; [reflexivity|].
    unfold ten_pow. rewrite Z.sub_0_l, Qpower_opp. reflexivity.
Qed.

Lemma StringToNumber_literal ip fp :
  allDigits ip = true -> ip <> EmptyString -> allDigits fp = true ->
  exists q, StringToNumber (decimalLiteral ip fp) = F q /\
            (q == literalValue ip fp)%Q.
Proof.
  intros Hip Hne Hfp.
  destruct (StrUnsignedDecimalLiteral_literal ip fp Hip Hne Hfp)
    as (q & Hlit & Hq).
  exists q. split; [|exact Hq].
  assert (Hplain : allPlain (decimalLiteral ip fp) = true).
  { unfold decimalLiteral. destruct fp as [|f fp].
    - now apply allDigits_allPlain.
    - rewrite !allPlain_app. rewrite (allDigits_allPlain _ Hip).
      now rewrite (allDigits_allPlain _ Hfp). }
  unfold StringToNumber.
  rewrite (trim_plain _ Hplain), (nonDecimalLiteral_plain _ Hplain).
  destruct ip as [|c ip]; [now elim Hne|].
  cbn [allDigits] in Hip. apply andb_prop in Hip as [Hc _].
  assert (Hshape : exists t, decimalLiteral (String c ip) fp = String c t).
  { unfold decimalLiteral. destruct fp; simpl; eauto. }
  destruct Hshape as [t Et]. rewrite Et in *.
  change ((String c t =? "")%string) with false. cbv iota.
  revert Hc Hlit. each_char c; intros Hc Hlit; try discriminate Hc;
    now rewrite Hlit.
Qed.

(** ** Agreement with the Standard Library's IEEE 754 operations

    On the operands the properties below turn on, rounding the exact
    product, sum or quotient with [F] gives what [SpecFloat] computes. *)

Example multiply_agrees_029 :
  ofSF (SFmul 53 1024 (toSF (StringToNumber "0.29")) (toSF (Fin 100))) =
  Number_multiply (StringToNumber "0.29") (Fin 100).
Proof. vm_compute. reflexivity. Qed.

Example multiply_agrees_18_digits :
  ofSF (SFmul 53 1024 (toSF (StringToNumber "1.234567890123456789"))
                      (toSF (StringToNumber "1e18"))) =
  Number_multiply (StringToNumber "1.234567890123456789")
                  (StringToNumber "1e18").
Proof. vm_compute. reflexivity. Qed.

Example multiply_agrees_overflow :
  ofSF (SFmul 53 1024 (toSF (StringToNumber "1e200"))
                      (toSF (StringToNumber "-1e200"))) =
  Number_multiply (StringToNumber "1e200") (StringToNumber "-1e200").
Proof. vm_compute. reflexivity. Qed.

Example multiply_agrees_subnormal :
  ofSF (SFmul 53 1024 (toSF (StringToNumber "1e-200"))
                      (toSF (StringToNumber "1.5e-120"))) =
  Number_multiply (StringToNumber "1e-200") (StringToNumber "1.5e-120").
Proof. vm_compute. reflexivity. Qed.

Example add_agrees :
  ofSF (SFadd 53 1024 (toSF (StringToNumber "0.1"))
                      (toSF (StringToNumber "0.2"))) =
  Number_add (StringToNumber "0.1") (StringToNumber "0.2").
Proof. vm_compute. reflexivity. Qed.

Example divide_agrees :
  ofSF (SFdiv 53 1024 (toSF (Fin 29)) (toSF (Fin 100))) = minorUnitsBack 29 2 /\
  minorUnitsBack 29 2 = StringToNumber "0.29".
Proof. split; vm_compute; reflexivity. Qed.

Example toSF_ofSF :
  ofSF (toSF (StringToNumber "0.29")) = StringToNumber "0.29" /\
  ofSF (toSF (StringToNumber "-1e300")) = StringToNumber "-1e300" /\
  ofSF (toSF (StringToNumber "5e-324")) = StringToNumber "5e-324".
Proof. repeat split; vm_compute; reflexivity. Qed.

(** ** The conversion on amounts the doubles hold exactly *)

Lemma Math_pow10_decimals d :
  0 <= d <= 22 ->
  Math_pow10 (Number_of_BigInt d) = Fin (inject_Z (10 ^ d)).
Proof.
  intros Hd.
  assert (H : d = 0 \/ d = 1 \/ d = 2 \/ d = 3 \/ d = 4 \/ d = 5 \/ d = 6 \/
              d = 7 \/ d = 8 \/ d = 9 \/ d = 10 \/ d = 11 \/ d = 12 \/
              d = 13 \/ d = 14 \/ d = 15 \/ d = 16 \/ d = 17 \/ d = 18 \/
              d = 19 \/ d = 20 \/ d = 21 \/ d = 22) by lia.
  repeat (destruct H as [->|H]; [vm_compute; reflexivity|]).
  subst d. vm_compute. reflexivity.
Qed.

Lemma dyadic53_bounds q :
  dyadic53 q -> (0 <= q)%Q /\ (q < two_pow 53)%Q.
Proof.
  intros (a & j & Ha & Hj & Hq).
  pose proof (two_pow_pos j) as Pj.
  assert (H1 : (1 <= two_pow j)%Q).
  { change 1%Q with (two_pow 0). apply two_pow_le. lia. }
  assert (Ha0 : (0 <= inject_Z a)%Q)
    by (change 0%Q with (inject_Z 0); rewrite <- Zle_Qle; lia).
  assert (Ha1 : (inject_Z a < two_pow 53)%Q)
    by (rewrite two_pow_Z by lia; rewrite <- Zlt_Qlt; lia).
  rewrite Hq. split.
  - apply Qle_shift_div_l; [exact Pj|]. lra.
  - apply Qlt_shift_div_r; [exact Pj|]. nra.
Qed.

Lemma F_dyadic53 q : dyadic53 q -> F q = Fin (Qred q).
Proof.
  intros Hd. destruct (dyadic53_bounds q Hd) as [_ Hlt].
  destruct Hd as (a & j & Ha & Hj & Hq).
  apply (F_exact q a (- j)); trivial; try lia.
  - rewrite Hq. unfold two_pow. rewrite Qpower_opp. reflexivity.
  - eapply Qlt_le_trans; [exact Hlt|]. apply two_pow_le. lia.
Qed.

(** When the amount and the scaled amount are both doubles below [2^53],
    no step of the conversion rounds. *)
Lemma conversion_exact x d :
  0 <= d <= 22 -> dyadic53 x -> dyadic53 (x * ten_pow d) ->
  BigInt (Number_toString
            (Math_floor (Number_multiply (F x)
                           (Math_pow10 (Number_of_BigInt d))))) =
  Ok (Qfloor (x * ten_pow d)).
Proof.
  intros Hd Hx Hp.
  rewrite (Math_pow10_decimals d Hd), (F_dyadic53 x Hx).
  cbn [Number_multiply].
  assert (E : (Qred x * inject_Z (10 ^ d) == x * ten_pow d)%Q).
  { rewrite Qred_correct, ten_pow_Z by lia. reflexivity. }
  assert (Hp' : dyadic53 (Qred x * inject_Z (10 ^ d))).
  { destruct Hp as (a & j & Ha & Hj & Hq). exists a, j.
    repeat split; trivial; try lia. now rewrite E. }
  rewrite (F_dyadic53 _ Hp'). cbn [Math_floor].
  rewrite (Qfloor_comp _ _ (Qred_correct _)), (Qfloor_comp _ _ E).
  apply BigInt_toString.
  destruct (dyadic53_bounds _ Hp) as [H0 H1]. split.
  - rewrite <- (Qfloor_Z 0). now apply Qfloor_resp_le.
  - pose proof (Qfloor_le (x * ten_pow d)) as Hf.
    rewrite two_pow_Z in H1 by lia.
    rewrite Zlt_Qlt. lra.
Qed.

(** C1, amended: for an amount written with decimal digits, when the
    amount and its product with [10^d] are both doubles below [2^53]
    (whole numbers, [2.5] with six decimals, ...), the amount in minor
    units is exactly the amount times [10^d], truncated, and this is the
    amount of any transfer call the [try] block builds. *)
Theorem amountWei_exact ip fp d :
  allDigits ip = true -> ip <> EmptyString -> allDigits fp = true ->
  0 <= d <= 18 ->
  dyadic53 (literalValue ip fp) ->
  dyadic53 (literalValue ip fp * ten_pow d) ->
  amountWei (VString (decimalLiteral ip fp)) d =
  Ok (exactMinorUnits (literalValue ip fp) d) /\
  (forall w c cb tok r a,
     amount c = VString (decimalLiteral ip fp) ->
     decimals w (tokenAddress c) = Ok d ->
     In (TransferCall tok r a) (fst (run (tryTransfer w c cb))) ->
     a = exactMinorUnits (literalValue ip fp) d).
Proof.
  intros Hip Hne Hfp Hd Hx Hp.
  assert (Hexact : amountWei (VString (decimalLiteral ip fp)) d =
                   Ok (exactMinorUnits (literalValue ip fp) d)).
  { destruct (StringToNumber_literal ip fp Hip Hne Hfp) as (q & Hparse & Hq).
    unfold amountWei, amountInteger. cbn [Number_]. rewrite Hparse.
    assert (Hx' : dyadic53 q).
    { destruct Hx as (a & j & Ha & Hj & E). exists a, j.
      repeat split; trivial; try lia. now rewrite Hq. }
    assert (Hp' : dyadic53 (q * ten_pow d)).
    { destruct Hp as (a & j & Ha & Hj & E). exists a, j.
      repeat split; trivial; try lia. now rewrite Hq. }
    rewrite (conversion_exact q d) by (trivial; lia).
    f_equal. unfold exactMinorUnits, truncate.
    destruct (dyadic53_bounds _ Hp) as [H0 _].
    apply Qle_bool_iff in H0. rewrite H0.
    apply Qfloor_comp. now rewrite Hq. }
  split; [exact Hexact|].
  intros w c cb tok r a Hamount Hdec Hin.
  pose proof (tryTransfer_events w c cb) as Hev.
  rewrite Forall_forall in Hev.
  destruct (Hev _ Hin) as (_ & _ & d' & Hd' & Ha).
  rewrite Hdec in Hd'. injection Hd' as <-.
  rewrite Hamount, Hexact in Ha. now injection Ha.
Qed.

Lemma amountWei_exact_witness :
  amountWei (VString (decimalLiteral "2" "5")) 6 =
  Ok (exactMinorUnits (literalValue "2" "5") 6).
Proof.
  apply (amountWei_exact "2" "5" 6); try reflexivity; try lia.
  - discriminate.
  - exists 5, 1. repeat split; try lia.
  - exists 2500000, 0. repeat split; try lia.
Defined.

(** The specification's example: 2.5 with six decimals. *)
Example two_and_a_half :
  amountWei (VString "2.5") 6 = Ok 2500000 /\
  exactMinorUnits (literalValue "2" "5") 6 = 2500000.
Proof. split; vm_compute; reflexivity. Qed.

(** C1, as stated, fails on its own example: with 18 decimals the amount
    ["1.234567890123456789"] comes out as 1234567890123456800, in the
    conversion and so in the transfer the handler executes. *)
Lemma amountWei_inexact :
  amountWei (VString (decimalLiteral "1" "234567890123456789")) 18 =
  Ok 1234567890123456800 /\
  exactMinorUnits (literalValue "1" "234567890123456789") 18 =
  1234567890123456789 /\
  run (LuckyMoney.handler
         (quietWorld greeting (extracted (VString "1.234567890123456789")) 18)
         None true) =
  ([AddRecipient (VString aliceAddress) "user"
                 (VString "1.234567890123456789");
    Decimals (VString strkAddress);
    TransferCall (VString strkAddress) (VString aliceAddress)
                 1234567890123456800;
    Execute [1234567890123456800];
    Callback (Transferred (VString "1.234567890123456789"))], Ok true).
Proof. repeat split; vm_compute; reflexivity. Qed.

(** C7, as stated, fails: 0.295 with two decimals is 29 minor units, 29
    goes back to 0.29, and 0.29 converts forward to 28. *)
Lemma round_trip_loses_a_unit :
  amountWei (VString "0.295") 2 = Ok 29 /\
  amountWei (VNumber (minorUnitsBack 29 2)) 2 = Ok 28.
Proof. split; vm_compute; reflexivity. Qed.

(** C7, amended: a minor-unit amount [m] below [2^53] that the conversion
    produced survives the round trip whenever [m / 10^d] is a double. *)
Theorem round_trip_on_doubles amount d m :
  0 <= d <= 18 ->
  amountWei amount d = Ok m ->
  0 <= m < 2 ^ 53 ->
  dyadic53 (inject_Z m / ten_pow d) ->
  amountWei (VNumber (minorUnitsBack m d)) d = Ok m.
Proof.
  intros Hd _ Hm Hq. unfold amountWei, amountInteger, minorUnitsBack.
  cbn [Number_].
  assert (E : (inject_Z m / ten_pow d * ten_pow d == inject_Z m)%Q)
    by (field; apply ten_pow_nonzero).
  rewrite (conversion_exact _ d); trivial; try lia.
  - now rewrite (Qfloor_comp _ _ E), Qfloor_Z.
  - exists m, 0. repeat split; try lia. rewrite E.
    change (two_pow 0) with 1%Q. field.
Qed.

Lemma round_trip_on_doubles_witness :
  amountWei (VNumber (minorUnitsBack 2500000 6)) 6 = Ok 2500000.
Proof.
  apply (round_trip_on_doubles (VString "2.5") 6 2500000); try lia.
  - vm_compute. reflexivity.
  - exists 5, 1. repeat split; try lia.
Defined.


(** ** The handlers from validation on *)

Lemma hexAddress_addressShape r : hexAddress r = true -> addressShape r = true.
Proof.
  intros (h & -> & Hl & _)%hexAddress_inv.
  unfold addressShape, startsWith. cbn [String.length]. rewrite Hl.
  destruct h; reflexivity.
Qed.

Lemma TransferTs_handler_match w state cb r0 :
  regexMatch (recentMessages (currentState w state)) = Some r0 ->
  TransferTs.handler w state cb =
  validateAndTransfer w (giftContent w state r0) cb.
Proof. intros H. unfold TransferTs.handler. now rewrite H. Qed.

Lemma LuckyMoney_handler_match w state cb r0 :
  regexMatch (recentMessages (currentState w state)) = Some r0 ->
  LuckyMoney.handler w state cb =
  let c := luckyContent w state r0 in
  let uid := userId (currentState w state) in
  if getRecipient w (VString r0) uid then ret false
  else
    emit (AddRecipient (VString r0) uid (amount c)) ;;;
    if negb (addRecipient w (VString r0) uid (amount c)) then ret false
    else validateAndTransfer w c cb.
Proof.
  intros H. unfold LuckyMoney.handler, luckyContent. rewrite H. cbv zeta.
  destruct (negb (ToBoolean _)); reflexivity.
Qed.

Lemma isTransferContent_matched isd c r :
  recipient c = VString r -> addressShape r = true ->
  isTransferContent isd c =
  Ok (tokenShape (tokenAddress c) && stringOrNumber (amount c)).
Proof.
  intros Hr Hs.
  destruct (tokenShape (tokenAddress c)) eqn:Ht.
  - destruct (stringOrNumber (amount c)) eqn:Ha.
    + rewrite (isTransferContent_recipient isd c Ht Ha), Hr.
      change (is_typeof (VString r) "string") with true.
      assert (Hne : r <> EmptyString) by (intros ->; discriminate Hs).
      now rewrite (ToBoolean_string r Hne), Hs.
    + now rewrite isTransferContent_amount.
  - now rewrite isTransferContent_token.
Qed.

(** From validation on, with the matched address as the recipient. *)
Lemma validateAndTransfer_matched w c cb r t :
  recipient c = VString r -> addressShape r = true ->
  validateAndTransfer w c cb t =
  if tokenShape (tokenAddress c) && stringOrNumber (amount c)
  then tryTransfer w c cb t
  else (if cb then t ++ [Callback InvalidContent] else t, Ok false).
Proof.
  intros Hr Hs. unfold validateAndTransfer, bind, lift.
  rewrite (isTransferContent_matched _ c r Hr Hs).
  destruct (_ && _); [reflexivity|].
  unfold when, emit, ret. now destruct cb.
Qed.

Ltac try_cases :=
  rewrite ?tryTransfer_run; unfold caught, resolved;
  repeat match goal with
         | |- context [match ?x with Ok _ => _ | Throw _ => _ end] =>
             destruct x eqn:?
         | |- context [if nullish ?v then _ else _] => destruct (nullish v) eqn:?
         end; cbn zeta; cbn [fst snd app].

(** The [try] block does not look at [starkName] when [recipient] is
    present. *)
Lemma tryTransfer_present w c c' cb t :
  tokenAddress c' = tokenAddress c -> recipient c' = recipient c ->
  amount c' = amount c -> nullish (recipient c) = false ->
  tryTransfer w c' cb t = tryTransfer w c cb t.
Proof.
  intros Ht Hr Ha Hn. rewrite !tryTransfer_run. unfold resolved.
  now rewrite Ht, Hr, Ha, Hn.
Qed.

Lemma giftContent_fields w state r0 :
  tokenAddress (giftContent w state r0) = STRK w /\
  recipient (giftContent w state r0) = VString r0 /\
  amount (giftContent w state r0) = VNumber (randomAmount (Math_random w)).
Proof. repeat split. Qed.

Lemma luckyContent_fields w state r0 :
  tokenAddress (luckyContent w state r0) = STRK w /\
  recipient (luckyContent w state r0) = VString r0.
Proof. unfold luckyContent. cbv zeta. destruct (negb _); repeat split. Qed.

(** X1: in [transfer.ts] nothing the language model answers reaches the
    run: the token, the recipient and the amount are all overwritten, and
    [starkName] is never looked at because the recipient is present. *)
Theorem transfer_ignores_model w g state cb :
  run (TransferTs.handler (withModel w g) state cb) =
  run (TransferTs.handler w state cb).
Proof.
  unfold run.
  destruct (regexMatch (recentMessages (currentState w state))) as [r0|] eqn:E.
  - pose proof (regexMatch_Some _ _ E) as [Hhex _].
    apply hexAddress_addressShape in Hhex.
    rewrite (TransferTs_handler_match w state cb r0 E).
    rewrite (TransferTs_handler_match (withModel w g) state cb r0 E).
    rewrite (validateAndTransfer_matched w (giftContent w state r0) cb r0 []
               eq_refl Hhex).
    rewrite (validateAndTransfer_matched (withModel w g)
               (giftContent (withModel w g) state r0) cb r0 [] eq_refl Hhex).
    change (tokenAddress (giftContent (withModel w g) state r0))
      with (tokenAddress (giftContent w state r0)).
    change (amount (giftContent (withModel w g) state r0))
      with (amount (giftContent w state r0)).
    destruct (_ && _); [|reflexivity].
    change (tryTransfer (withModel w g)) with (tryTransfer w).
    apply tryTransfer_present; reflexivity.
  - unfold TransferTs.handler.
    change (currentState (withModel w g) state) with (currentState w state).
    now rewrite E.
Qed.

Lemma tryTransfer_outcome w c cb : tryOutcome w c cb (run (tryTransfer w c cb)).
Proof.
  unfold run. rewrite tryTransfer_run. cbn zeta. cbn [app].
  destruct (getStarknetAccount w) as [u|e] eqn:Hacc; [|now apply NoAccount].
  destruct (decimals w (tokenAddress c)) as [d|e] eqn:Hd;
    [|apply NoAmount; now left].
  destruct (amountWei (amount c) d) as [a|e] eqn:Ha;
    [|apply NoAmount; right; now exists d].
  destruct (snd (resolved w c)) as [r|e] eqn:Hr; [|now apply NoRecipient].
  destruct (transferCall w (tokenAddress c) r a) as [call|e] eqn:Hc;
    [|now apply NoCall].
  destruct (execute w call) as [h|e] eqn:He.
  - pose proof (Executed w c cb r a call h Hr Hc He) as H.
    destruct cb; cbn [app] in H |- *; rewrite <- ?app_assoc; cbn [app];
      rewrite ?app_nil_r in H; exact H.
  - pose proof (NotExecuted w c cb e r a call Hr Hc He) as H.
    rewrite <- ?app_assoc; cbn [app]; exact H.
Qed.

Lemma count_app p a b : count p (a ++ b) = (count p a + count p b)%nat.
Proof. unfold count. now rewrite filter_app, length_app. Qed.

Lemma count_cons p e t :
  count p (e :: t) = ((if p e then 1 else 0) + count p t)%nat.
Proof. unfold count. simpl. now destruct (p e). Qed.

Lemma resolved_events w c e :
  In e (fst (resolved w c)) -> e = GetAddressFromName (starkName c).
Proof.
  unfold resolved. destruct (nullish (recipient c)); simpl; [|tauto].
  now intros [<-|[]].
Qed.

Lemma resolved_count w c p :
  p (GetAddressFromName (starkName c)) = false ->
  count p (fst (resolved w c)) = 0%nat.
Proof.
  intros H. unfold resolved, count.
  destruct (nullish (recipient c)); simpl; [now rewrite H|reflexivity].
Qed.

Ltac count_events :=
  unfold caught; cbn [fst snd];
  repeat first [ rewrite count_app | rewrite count_cons
               | rewrite resolved_count by reflexivity ];
  cbn [isCallback isExecute isAddRecipient count filter List.length].

Ltac find_event :=
  repeat match goal with
         | H : In _ (_ ++ _) |- _ => apply in_app_or in H; destruct H as [H|H]
         | H : In _ (_ :: _) |- _ => destruct H as [H|H]; try discriminate H
         | H : In _ [] |- _ => destruct H
         | H : In _ (fst (resolved _ _)) |- _ =>
             apply resolved_events in H; discriminate H
         | H : In _ (if ?b then _ else _) |- _ => destruct b
         | H : Execute _ = Execute _ |- _ => injection H as H; subst
         end.

Lemma caught_events cb e t x :
  In x (fst (caught cb e t)) -> In x t \/ x = Callback (Failed e).
Proof.
  unfold caught. destruct cb; cbn [fst]; [|tauto].
  intros [H|[<-|[]]]%in_app_or; tauto.
Qed.

Lemma caught_keeps cb e t x : In x t -> In x (fst (caught cb e t)).
Proof.
  unfold caught. destruct cb; cbn [fst]; [|tauto].
  intros H. apply in_or_app. now left.
Qed.

Lemma tryOutcome_facts w c cb o : tryOutcome w c cb o -> runFacts w cb o.
Proof.
  intros H. split.
  - destruct H; cbn [caught snd]; eauto.
  - destruct H; destruct cb; count_events; reflexivity.
  - destruct H; destruct cb; count_events; lia.
  - destruct H; destruct cb; count_events; reflexivity.
  - split.
    + intros Ht. destruct H; try discriminate Ht.
      exists call, h. split; [|assumption].
      cbn [fst]. right. apply in_or_app. right. simpl. tauto.
    + intros (call0 & h0 & Hin & Hex).
      destruct H; try reflexivity; exfalso;
        try (apply caught_events in Hin; destruct Hin as [Hin|Hin];
             [|discriminate Hin]);
        cbn [fst] in Hin; find_event; congruence.
  - intros call0 Hin.
    destruct H;
      try (apply caught_events in Hin; destruct Hin as [Hin|Hin];
           [|discriminate Hin]);
      cbn [fst] in Hin; find_event;
      do 3 eexists; (split; [|eassumption]);
      try apply caught_keeps; cbn [fst app];
      right; apply in_or_app; right; simpl; tauto.
Qed.

Lemma invalid_facts w cb :
  runFacts w cb (if cb then [Callback InvalidContent] else [], Ok false).
Proof.
  split; destruct cb; cbn [fst snd]; try reflexivity; eauto;
    try (unfold count; simpl; lia);
    try (split; [intros [=]|intros (? & ? & Hin & _); find_event]);
    intros call Hin; find_event.
Qed.

Lemma validateAndTransfer_facts w c cb r :
  recipient c = VString r -> addressShape r = true ->
  runFacts w cb (run (validateAndTransfer w c cb)).
Proof.
  intros Hr Hs. unfold run.
  rewrite (validateAndTransfer_matched w c cb r [] Hr Hs).
  destruct (_ && _).
  - apply (tryOutcome_facts w c cb), tryTransfer_outcome.
  - apply invalid_facts.
Qed.

(** The runs of the two handlers, by what the regular expression and the
    database answer. *)
Lemma TransferTs_run w state cb :
  let s := recentMessages (currentState w state) in
  (noMatch s /\ run (TransferTs.handler w state cb) = ([], Ok false)) \/
  (exists r0, firstMatch s r0 /\
     run (TransferTs.handler w state cb) =
     run (validateAndTransfer w (giftContent w state r0) cb)).
Proof.
  intros s. destruct (regexMatch s) as [r0|] eqn:E.
  - right. exists r0. split; [now apply regexMatch_Some|].
    unfold run. now rewrite (TransferTs_handler_match w state cb r0 E).
  - left. split; [now apply regexMatch_None|].
    unfold run, TransferTs.handler. fold s. now rewrite E.
Qed.

Lemma LuckyMoney_run w state cb :
  let s := recentMessages (currentState w state) in
  let uid := userId (currentState w state) in
  (noMatch s /\ run (LuckyMoney.handler w state cb) = ([], Ok false)) \/
  (exists r0, firstMatch s r0 /\
     let c := luckyContent w state r0 in
     let record := AddRecipient (VString r0) uid (amount c) in
     if getRecipient w (VString r0) uid then
       run (LuckyMoney.handler w state cb) = ([], Ok false)
     else if addRecipient w (VString r0) uid (amount c) then
       run (LuckyMoney.handler w state cb) =
       (record :: fst (run (validateAndTransfer w c cb)),
        snd (run (validateAndTransfer w c cb)))
     else run (LuckyMoney.handler w state cb) = ([record], Ok false)).
Proof.
  intros s uid. destruct (regexMatch s) as [r0|] eqn:E.
  - right. exists r0. split; [now apply regexMatch_Some|]. cbv zeta.
    unfold run. rewrite (LuckyMoney_handler_match w state cb r0 E). cbv zeta.
    fold uid. destruct (getRecipient w (VString r0) uid); [reflexivity|].
    unfold bind, emit. cbn [app].
    destruct (addRecipient w (VString r0) uid _); cbn [negb];
      [|reflexivity].
    now rewrite validateAndTransfer_append.
  - left. split; [now apply regexMatch_None|].
    unfold run, LuckyMoney.handler. fold s. now rewrite E.
Qed.

Lemma firstMatch_shape s r0 : firstMatch s r0 -> addressShape r0 = true.
Proof. intros [H _]. now apply hexAddress_addressShape. Qed.

Lemma gift_facts w state cb r0 :
  firstMatch (recentMessages (currentState w state)) r0 ->
  runFacts w cb (run (validateAndTransfer w (giftContent w state r0) cb)).
Proof.
  intros H. apply (validateAndTransfer_facts w _ cb r0); [reflexivity|].
  now apply firstMatch_shape in H.
Qed.

Lemma lucky_facts w state cb r0 :
  firstMatch (recentMessages (currentState w state)) r0 ->
  runFacts w cb (run (validateAndTransfer w (luckyContent w state r0) cb)).
Proof.
  intros H. apply (validateAndTransfer_facts w _ cb r0).
  - apply luckyContent_fields.
  - now apply firstMatch_shape in H.
Qed.

Ltac by_runs w state cb :=
  let r0 := fresh "r0" in
  let Hm := fresh "Hm" in
  let Hrun := fresh "Hrun" in
  split;
  [ destruct (TransferTs_run w state cb) as [[_ Hrun]|(r0 & Hm & Hrun)];
    rewrite Hrun; [|pose proof (gift_facts w state cb r0 Hm) as Facts]
  | destruct (LuckyMoney_run w state cb) as [[_ Hrun]|(r0 & Hm & Hrun)];
    [rewrite Hrun
    |pose proof (lucky_facts w state cb r0 Hm) as Facts; cbv zeta in Hrun;
     destruct (getRecipient w _ _);
     [|destruct (addRecipient w _ _ _)]; rewrite Hrun] ];
  cbn [fst snd].

(** X2: neither handler ever throws, although [isTransferContent] can: the
    recipient it is given is always the matched string. *)
Theorem handlers_return_boolean w state cb :
  (exists b, snd (run (TransferTs.handler w state cb)) = Ok b) /\
  (exists b, snd (run (LuckyMoney.handler w state cb)) = Ok b).
Proof. by_runs w state cb; eauto; exact (rf_boolean _ _ _ Facts). Qed.

(** X3: a handler answers true exactly when it has executed a transaction
    and the account accepted it. *)
Theorem true_iff_executed w state cb :
  (snd (run (TransferTs.handler w state cb)) = Ok true <->
   exists call h, In (Execute call) (fst (run (TransferTs.handler w state cb)))
                  /\ execute w call = Ok h) /\
  (snd (run (LuckyMoney.handler w state cb)) = Ok true <->
   exists call h, In (Execute call) (fst (run (LuckyMoney.handler w state cb)))
                  /\ execute w call = Ok h).
Proof.
  by_runs w state cb;
    try solve [split; [intros [=]|intros (? & ? & Hin & _); find_event]].
  - exact (rf_true _ _ _ Facts).
  - rewrite (rf_true _ _ _ Facts). split; intros (call & h & Hin & Hex);
      exists call, h; (split; [|assumption]).
    + now right.
    + destruct Hin as [Hin|Hin]; [discriminate Hin|assumption].
Qed.

(** X4: a run executes at most one transaction, and the call it executes is
    the one the ERC20 wrapper built for a transfer the trace shows. *)
Theorem one_transaction w state cb :
  ((count isExecute (fst (run (TransferTs.handler w state cb))) <= 1)%nat /\
   forall call, In (Execute call) (fst (run (TransferTs.handler w state cb))) ->
     exists tok rcp a,
       In (TransferCall tok rcp a) (fst (run (TransferTs.handler w state cb))) /\
       transferCall w tok rcp a = Ok call) /\
  ((count isExecute (fst (run (LuckyMoney.handler w state cb))) <= 1)%nat /\
   forall call, In (Execute call) (fst (run (LuckyMoney.handler w state cb))) ->
     exists tok rcp a,
       In (TransferCall tok rcp a) (fst (run (LuckyMoney.handler w state cb))) /\
       transferCall w tok rcp a = Ok call).
Proof.
  by_runs w state cb;
    try (split; [unfold count; simpl; lia|intros call Hin; find_event]).
  - split; [exact (rf_executions _ _ _ Facts)|exact (rf_built _ _ _ Facts)].
  - split; [rewrite count_cons; exact (rf_executions _ _ _ Facts)|].
    intros call [Hin|Hin]; [discriminate Hin|].
    destruct (rf_built _ _ _ Facts call Hin) as (tok & rcp & a & Hin' & Hb).
    exists tok, rcp, a. split; [now right|assumption].
Qed.

(** X5: the callback is called at most once in a run and never when it is
    absent; [transfer.ts] calls it exactly once as soon as an address was
    found, and neither handler calls it when none was. *)
Theorem one_reply w state cb :
  let s := recentMessages (currentState w state) in
  let replies h := count isCallback (fst (run (h w state cb))) in
  (replies TransferTs.handler <= (if cb then 1 else 0))%nat /\
  (replies LuckyMoney.handler <= (if cb then 1 else 0))%nat /\
  (noMatch s -> replies TransferTs.handler = 0%nat /\
                replies LuckyMoney.handler = 0%nat) /\
  (forall r0, firstMatch s r0 ->
              replies TransferTs.handler = if cb then 1%nat else 0%nat).
Proof.
  intros s replies. subst replies. cbv beta.
  assert (H : (count isCallback (fst (run (TransferTs.handler w state cb)))
               <= (if cb then 1 else 0))%nat /\
              (count isCallback (fst (run (LuckyMoney.handler w state cb)))
               <= (if cb then 1 else 0))%nat).
  { by_runs w state cb; try (unfold count; simpl; lia).
    - rewrite (rf_replies _ _ _ Facts). lia.
    - rewrite count_cons, (rf_replies _ _ _ Facts). simpl. lia. }
  destruct H as [H1 H2]. split; [exact H1|]. split; [exact H2|]. split.
  - intros Hno. apply regexMatch_None in Hno.
    unfold run, TransferTs.handler, LuckyMoney.handler. fold s.
    rewrite Hno. split; reflexivity.
  - intros r0 Hm. pose proof (gift_facts w state cb r0 Hm) as Facts.
    apply firstMatch_regexMatch in Hm. unfold run.
    rewrite (TransferTs_handler_match w state cb r0 Hm).
    apply (rf_replies _ _ _ Facts).
Qed.

(** X6: what the pattern finds is the leftmost substring made of [0x] and
    64 hexadecimal digits, and nothing when there is none; whatever it
    finds passes the recipient check of [isTransferContent]. *)
Theorem regexMatch_leftmost s :
  (forall r, regexMatch s = Some r <-> firstMatch s r) /\
  (regexMatch s = None <-> noMatch s) /\
  (forall r, regexMatch s = Some r ->
             String.length r = 66%nat /\ addressShape r = true).
Proof.
  split; [|split].
  - intros r. split; [apply regexMatch_Some|apply firstMatch_regexMatch].
  - apply regexMatch_None.
  - intros r H. apply regexMatch_Some in H. destruct H as [Hh _].
    split; [|now apply hexAddress_addressShape].
    destruct (hexAddress_inv r Hh) as (h & -> & Hl & _).
    cbn [String.length]. now rewrite Hl.
Qed.

(** X7: [isTransferContent] throws only a TypeError, and exactly when the
    token and the amount pass, [starkName] is a string and [recipient] is
    truthy without being a string, so that it has no [startsWith]. *)
Theorem isTransferContent_throws isd c e :
  isTransferContent isd c = Throw e <->
  e = TypeError /\
  tokenShape (tokenAddress c) = true /\
  stringOrNumber (amount c) = true /\
  is_typeof (starkName c) "string" = true /\
  ToBoolean (recipient c) = true /\
  is_typeof (recipient c) "string" = false.
Proof.
  destruct (tokenShape (tokenAddress c)) eqn:Ht.
  2:{ rewrite (isTransferContent_token isd c Ht).
      split; [discriminate|]. intros (_ & H & _). discriminate H. }
  destruct (stringOrNumber (amount c)) eqn:Ha.
  2:{ rewrite (isTransferContent_amount isd c Ha).
      split; [discriminate|]. intros (_ & _ & H & _). discriminate H. }
  rewrite (isTransferContent_recipient isd c Ht Ha).
  destruct (is_typeof (starkName c) "string") eqn:Hs.
  - rewrite orb_true_r. cbn [negb].
    destruct (ToBoolean (recipient c)) eqn:Hb.
    + destruct (recipient c) as [| | | |r|];
        try solve [split; [intros [= <-]; now repeat split
                          |now intros (-> & _)]].
      split; [destruct (addressShape r); discriminate|].
      intros (_ & _ & _ & _ & _ & H). discriminate H.
    + destruct (ToBoolean (starkName c));
        (split; [discriminate|]; intros (_ & _ & _ & _ & H & _);
         discriminate H).
  - rewrite orb_false_r.
    destruct (is_typeof (recipient c) "string") eqn:Hr; cbn [negb].
    + destruct (recipient c) as [| | | |r|]; try discriminate Hr.
      destruct (ToBoolean (VString r));
        [|destruct (ToBoolean (starkName c))];
        (split; [discriminate|]; intros (_ & _ & _ & H & _); discriminate H).
    + split; [discriminate|]. intros (_ & _ & _ & H & _). discriminate H.
Qed.

(** X8: in [transfer.ts], once an address was found, validation can fail
    on the configured STRK address only: with a well-shaped one the run is
    that of the [try] block on the matched recipient and the drawn amount,
    otherwise the only effect is the reply about invalid content. *)
Theorem gift_validation w state cb r0 :
  firstMatch (recentMessages (currentState w state)) r0 ->
  run (TransferTs.handler w state cb) =
  if tokenShape (STRK w)
  then run (tryTransfer w
              (mkContent (STRK w) (VString r0)
                 (starkName (generatedContent w (currentState w state)))
                 (VNumber (randomAmount (Math_random w)))) cb)
  else (if cb then [Callback InvalidContent] else [], Ok false).
Proof.
  intros Hm. pose proof (firstMatch_shape _ _ Hm) as Hs.
  apply firstMatch_regexMatch in Hm. unfold run.
  rewrite (TransferTs_handler_match w state cb r0 Hm).
  rewrite (validateAndTransfer_matched w (giftContent w state r0) cb r0 []
             eq_refl Hs).
  change (tokenAddress (giftContent w state r0)) with (STRK w).
  change (amount (giftContent w state r0))
    with (VNumber (randomAmount (Math_random w))).
  cbn [stringOrNumber]. rewrite andb_true_r. reflexivity.
Qed.

(** X9: the lucky-money handler serves a recipient the database already
    holds with no effect at all; otherwise it records the recipient with
    the amount (the model's when truthy, a drawn one if not) before
    validation and before any transfer, exactly once, and stops there
    when the database refuses the record. *)
Theorem lucky_money_records_first w state cb r0 :
  let st := currentState w state in
  let extracted := amount (generateObjectDeprecated w (composeContext w st)) in
  let a := if ToBoolean extracted then extracted
           else VNumber (randomAmount (Math_random w)) in
  let out := run (LuckyMoney.handler w state cb) in
  firstMatch (recentMessages st) r0 ->
  if getRecipient w (VString r0) (userId st) then out = ([], Ok false)
  else exists rest,
      fst out = AddRecipient (VString r0) (userId st) a :: rest /\
      count isAddRecipient rest = 0%nat /\
      (addRecipient w (VString r0) (userId st) a = false ->
       rest = [] /\ snd out = Ok false).
Proof.
  intros st extracted a out Hm. subst out.
  assert (Ea : amount (luckyContent w state r0) = a).
  { unfold luckyContent, a, extracted, st. cbv zeta.
    cbn [set_recipient generatedContent set_tokenAddress amount].
    now destruct (ToBoolean _). }
  pose proof (lucky_facts w state cb r0 Hm) as Facts.
  destruct (LuckyMoney_run w state cb) as [[Hno _]|(r1 & Hm1 & Hrun)].
  { destruct Hm as (Hh & pre & Hocc & _).
    rewrite (Hno _ _ Hocc) in Hh. discriminate Hh. }
  rewrite <- (firstMatch_unique _ _ _ Hm Hm1) in Hrun. clear r1 Hm1.
  cbv zeta in Hrun. rewrite Ea in Hrun. fold st in Hrun.
  destruct (getRecipient w (VString r0) (userId st)); [exact Hrun|].
  destruct (addRecipient w (VString r0) (userId st) a); rewrite Hrun.
  - eexists. split; [reflexivity|]. split; [exact (rf_records _ _ _ Facts)|].
    discriminate.
  - exists []. repeat split.
Qed.

(** X10: in the lucky-money handler a recorded run is rejected as invalid
    content exactly when the configured STRK address is malformed or the
    model's amount is truthy without being a string or a number; the
    recipient has been recorded by then. *)
Theorem lucky_validation w state cb r0 :
  let st := currentState w state in
  let extracted := amount (generateObjectDeprecated w (composeContext w st)) in
  let a := if ToBoolean extracted then extracted
           else VNumber (randomAmount (Math_random w)) in
  firstMatch (recentMessages st) r0 ->
  getRecipient w (VString r0) (userId st) = false ->
  addRecipient w (VString r0) (userId st) a = true ->
  run (LuckyMoney.handler w state cb) =
  if tokenShape (STRK w) && stringOrNumber a
  then (AddRecipient (VString r0) (userId st) a
          :: fst (run (tryTransfer w
                         (mkContent (STRK w) (VString r0)
                            (starkName (generatedContent w st)) a) cb)),
        snd (run (tryTransfer w
                    (mkContent (STRK w) (VString r0)
                       (starkName (generatedContent w st)) a) cb)))
  else (AddRecipient (VString r0) (userId st) a
          :: (if cb then [Callback InvalidContent] else []), Ok false).
Proof.
  intros st extracted a Hm Hget Hadd.
  assert (Ec : luckyContent w state r0 =
               mkContent (STRK w) (VString r0)
                 (starkName (generatedContent w st)) a).
  { unfold luckyContent, a, extracted, st. cbv zeta.
    cbn [set_recipient generatedContent set_tokenAddress amount set_amount
         tokenAddress recipient starkName negb].
    destruct (ToBoolean _); reflexivity. }
  pose proof (firstMatch_shape _ _ Hm) as Hs.
  destruct (LuckyMoney_run w state cb) as [[Hno _]|(r1 & Hm1 & Hrun)].
  { destruct Hm as (Hh & pre & Hocc & _).
    rewrite (Hno _ _ Hocc) in Hh. discriminate Hh. }
  rewrite <- (firstMatch_unique _ _ _ Hm Hm1) in Hrun. clear r1 Hm1.
  cbv zeta in Hrun. rewrite Ec in Hrun. fold st in Hrun.
  cbn [amount] in Hrun. rewrite Hget, Hadd in Hrun. rewrite Hrun.
  unfold run.
  rewrite (validateAndTransfer_matched w
             (mkContent (STRK w) (VString r0)
                (starkName (generatedContent w st)) a) cb r0 [] eq_refl Hs).
  cbn [tokenAddress amount].
  destruct (tokenShape (STRK w) && stringOrNumber a); [reflexivity|].
  now destruct cb.
Qed.

(** ** Amounts of either sign *)

Lemma Qopp_opp_eq q : (- - q)%Q = q.
Proof. destruct q as [n d]. unfold Qopp. cbn. now rewrite Z.opp_involutive. Qed.

Lemma Qabs_opp_eq q : Qabs (- q) = Qabs q.
Proof. destruct q as [n d]. unfold Qabs, Qopp. cbn. now rewrite Z.abs_opp. Qed.

(** Rounding is symmetric about zero. *)
Lemma F_opp q : F (- q) = Number_negate (F q).
Proof.
  unfold F. rewrite Qabs_opp_eq.
  destruct (Qeq_bool q 0) eqn:E0.
  - assert (E1 : Qeq_bool (- q) 0 = true).
    { apply Qeq_bool_iff. apply Qeq_bool_iff in E0. rewrite E0. reflexivity. }
    now rewrite E1.
  - assert (E1 : Qeq_bool (- q) 0 = false).
    { apply not_true_is_false. intros E. apply Qeq_bool_iff in E.
      apply Qeq_bool_neq in E0. apply E0.
      rewrite <- (Qopp_opp_eq q), E. reflexivity. }
    rewrite E1. apply Qeq_bool_neq in E0.
    assert (Es : Qle_bool 0 (- q) = negb (Qle_bool 0 q)).
    { destruct (Qle_bool 0 q) eqn:L; cbn [negb].
      - apply Qle_bool_iff in L. apply not_true_is_false. intros L'.
        apply Qle_bool_iff in L'. apply E0. lra.
      - apply Qle_bool_iff. destruct (Qlt_le_dec q 0) as [H|H]; [lra|].
        apply Qle_bool_iff in H. congruence. }
    rewrite Es.
    destruct (Qle_bool (two_pow 1024) _); cbn [Number_negate];
      [reflexivity|].
    f_equal. apply Qred_complete. rewrite Qred_correct.
    destruct (Qle_bool 0 q); cbn [negb]; [reflexivity|].
    now rewrite Qopp_opp_eq.
Qed.

Lemma F_dyadic53_opp q : dyadic53 (- q) -> F q = Fin (Qred q).
Proof.
  intros H. rewrite <- (Qopp_opp_eq q) at 1.
  rewrite F_opp, (F_dyadic53 _ H). cbn [Number_negate].
  f_equal. apply Qred_complete. rewrite Qred_correct. apply Qopp_opp.
Qed.

Lemma BigInt_minus_digitsOf z :
  0 <= z -> BigInt (String "-" (digitsOf z)) = Ok (- z).
Proof.
  intros Hz. unfold BigInt.
  pose proof (allDigits_allPlain _ (allDigits_digitsOf z)) as Hp.
  assert (Et : trim (String "-" (digitsOf z)) = String "-" (digitsOf z)).
  { unfold trim. cbn [trimStart]. change (isWhiteSpace "-") with false.
    cbv iota. cbn [trimEnd]. rewrite (trimEnd_plain _ Hp).
    reflexivity. }
  rewrite Et.
  change ((String "-" (digitsOf z) =? "")%string) with false. cbv iota.
  assert (En : nonDecimalLiteral (String "-" (digitsOf z)) = None)
    by reflexivity.
  rewrite En. now rewrite (parseDigits_digitsOf z Hz).
Qed.

Lemma BigInt_toString_opp z :
  0 <= z < 2 ^ 53 -> BigInt (Number_toString (Fin (inject_Z (- z)))) = Ok (- z).
Proof.
  intros Hz. destruct (Z.eq_dec z 0) as [->|Hne]; [reflexivity|].
  unfold Number_toString.
  assert (E0 : is_zero (inject_Z (- z)) = false).
  { apply not_true_is_false. intros E. apply Qeq_bool_iff in E.
    apply (inject_Z_injective (- z) 0) in E. lia. }
  assert (En : is_neg (inject_Z (- z)) = true).
  { unfold is_neg. apply negb_true_iff, not_true_is_false. intros L.
    apply Qle_bool_iff in L. change 0%Q with (inject_Z 0) in L.
    rewrite <- Zle_Qle in L. lia. }
  rewrite E0, En.
  change (- inject_Z (- z))%Q with (inject_Z (- - z)).
  rewrite Z.opp_involutive, positive_toString_int by lia.
  apply BigInt_minus_digitsOf. lia.
Qed.

Lemma dyadic53_le_int q a j :
  0 <= a -> 0 <= j -> (q == inject_Z a / two_pow j)%Q -> (q <= inject_Z a)%Q.
Proof.
  intros Ha Hj ->. pose proof (two_pow_pos j) as Pj.
  apply Qle_shift_div_r; [exact Pj|].
  rewrite two_pow_Z by lia. rewrite <- inject_Z_mult, <- Zle_Qle.
  assert (1 <= 2 ^ j) by (apply Z.pow_le_mono_r with (b := 0); lia). nia.
Qed.

(** X11: for an amount that is a number, whenever the product with [10^d]
    is exactly a double of magnitude below [2^53] the minor units are the
    floor of the exact product: [Math.floor] rounds toward minus infinity,
    so a negative fractional amount is rounded away from zero. *)
Theorem amountWei_floors x d :
  0 <= d <= 22 -> dyadic53 (Qabs (x * ten_pow d)) ->
  amountWei (VNumber (Fin x)) d = Ok (Qfloor (x * ten_pow d)).
Proof.
  intros Hd Hp. unfold amountWei, amountInteger. cbn [Number_].
  rewrite (Math_pow10_decimals d Hd). cbn [Number_multiply].
  assert (E : (x * inject_Z (10 ^ d) == x * ten_pow d)%Q)
    by (rewrite ten_pow_Z by lia; reflexivity).
  destruct (Qlt_le_dec (x * ten_pow d) 0) as [Hneg|Hpos].
  - assert (Ha : (Qabs (x * ten_pow d) == - (x * inject_Z (10 ^ d)))%Q)
      by (rewrite E; apply Qabs_neg; lra).
    destruct Hp as (a & j & Hra & Hj & Hq).
    assert (Hp' : dyadic53 (- (x * inject_Z (10 ^ d)))).
    { exists a, j. repeat split; trivial; try lia. now rewrite <- Ha. }
    rewrite (F_dyadic53_opp _ Hp'). cbn [Math_floor].
    rewrite (Qfloor_comp _ _ (Qred_correct _)), (Qfloor_comp _ _ E).
    set (z := Qfloor (x * ten_pow d)).
    assert (Hz : 0 <= - z < 2 ^ 53).
    { assert (Hlo : (inject_Z (- (2 ^ 53 - 1)) <= x * ten_pow d)%Q).
      { assert (Hle : (Qabs (x * ten_pow d) <= inject_Z a)%Q)
          by (apply (dyadic53_le_int _ a j); trivial; lia).
        rewrite Ha, E in Hle.
        assert (Ha53 : (inject_Z a <= inject_Z (2 ^ 53 - 1))%Q)
          by (rewrite <- Zle_Qle; lia).
        rewrite inject_Z_opp.
        generalize dependent (x * ten_pow d)%Q.
        generalize dependent (inject_Z (2 ^ 53 - 1)).
        generalize dependent (inject_Z a). intros.
        clear - Hle Ha53. lra. }
      apply Qfloor_resp_le in Hlo. rewrite Qfloor_Z in Hlo. fold z in Hlo.
      pose proof (Qfloor_le (x * ten_pow d)) as Hf. fold z in Hf.
      assert (Hz0 : (inject_Z z < inject_Z 0)%Q)
        by (eapply Qle_lt_trans; [exact Hf|exact Hneg]).
      rewrite <- Zlt_Qlt in Hz0. lia. }
    rewrite <- (Z.opp_involutive z). now apply BigInt_toString_opp.
  - assert (Ha : (Qabs (x * ten_pow d) == x * inject_Z (10 ^ d))%Q)
      by (rewrite E; apply Qabs_pos; lra).
    assert (Hp' : dyadic53 (x * inject_Z (10 ^ d))).
    { destruct Hp as (a & j & Hra & Hj & Hq). exists a, j.
      repeat split; trivial; try lia. now rewrite <- Ha. }
    rewrite (F_dyadic53 _ Hp'). cbn [Math_floor].
    rewrite (Qfloor_comp _ _ (Qred_correct _)), (Qfloor_comp _ _ E).
    apply BigInt_toString.
    destruct (dyadic53_bounds _ Hp') as [H0 H1]. rewrite E in H0, H1. split.
    + rewrite <- (Qfloor_Z 0). now apply Qfloor_resp_le.
    + pose proof (Qfloor_le (x * ten_pow d)) as Hf.
      rewrite two_pow_Z in H1 by lia.
      rewrite Zlt_Qlt. lra.
Qed.

Lemma amountWei_floors_witness :
  (amountWei (VNumber (Fin ((-5) # 2))) 0 = Ok (-3)) /\
  (amountWei (VNumber (Fin (5 # 2))) 0 = Ok 2).
Proof.
  split.
  - apply (amountWei_floors ((-5) # 2) 0); [lia|].
    exists 5, 1. repeat split; lia.
  - apply (amountWei_floors (5 # 2) 0); [lia|].
    exists 5, 1. repeat split; lia.
Defined.

(** ** The drawn amount *)

Lemma number_same_eq x y : number_same x y = true -> x = y.
Proof.
  destruct x as [|s|[a b]], y as [|t|[c d]]; try discriminate; cbn.
  - reflexivity.
  - intros H. apply Bool.eqb_prop in H. now subst.
  - intros [H1 H2]%andb_prop. apply Z.eqb_eq in H1. apply Pos.eqb_eq in H2.
    now subst.
Qed.

Lemma range_In lo len n :
  lo <= n < lo + Z.of_nat len -> In n (range lo len).
Proof.
  intros H. unfold range. apply in_map_iff. exists (Z.to_nat (n - lo)).
  split; [lia|]. apply in_seq. lia.
Qed.

Lemma round_half_even_le s N : (s <= inject_Z N)%Q -> round_half_even s <= N.
Proof.
  intros H. unfold round_half_even.
  pose proof (Qfloor_le s) as Hf.
  assert (Hfn : Qfloor s <= N).
  { rewrite <- (Qfloor_Z N). now apply Qfloor_resp_le. }
  assert (Hup : (inject_Z (Qfloor s) < s)%Q -> Qfloor s + 1 <= N).
  { intros Hlt. assert (Hz : (inject_Z (Qfloor s) < inject_Z N)%Q) by lra.
    rewrite <- Zlt_Qlt in Hz. lia. }
  destruct (Qcompare (s - inject_Z (Qfloor s)) (1 # 2)) eqn:C.
  - destruct (Z.even _); [exact Hfn|]. apply Qeq_alt in C. apply Hup. lra.
  - exact Hfn.
  - apply Qgt_alt in C. apply Hup. lra.
Qed.

(** Rounding never crosses a double: between two multiples of [2^k] with
    53-bit numerators, the rounded value stays between them. *)
Lemma F_between q A B k :
  0 <= A -> B < 2 ^ 53 -> -1074 <= k -> 53 + k <= 1024 ->
  (inject_Z A * two_pow k <= q)%Q -> (q <= inject_Z B * two_pow k)%Q ->
  exists x, F q = Fin x /\
            (inject_Z A * two_pow k <= x)%Q /\
            (x <= inject_Z B * two_pow k)%Q.
Proof.
  intros HA HB Hk Hk' Hlo Hhi. pose proof (two_pow_pos k) as Pk.
  assert (HA' : (0 <= inject_Z A * two_pow k)%Q).
  { apply Qmult_le_0_compat; [|lra].
    change 0%Q with (inject_Z 0). rewrite <- Zle_Qle. lia. }
  unfold F. destruct (Qeq_bool q 0) eqn:E0.
  - apply Qeq_bool_iff in E0. exists 0%Q. split; [reflexivity|].
    rewrite E0 in Hlo, Hhi. split; assumption.
  - apply Qeq_bool_neq in E0.
    assert (Hpos : (0 < q)%Q).
    { destruct (Qlt_le_dec 0 q) as [H|H]; [exact H|]. elim E0. lra. }
    assert (Habs : Qabs q = q).
    { destruct q as [n d]. unfold Qabs. f_equal.
      unfold Qlt in Hpos. simpl in Hpos. lia. }
    rewrite Habs.
    assert (Hle : Qle_bool 0 q = true) by (apply Qle_bool_iff; lra).
    rewrite Hle.
    assert (HB' : (inject_Z B * two_pow k < two_pow (53 + k))%Q).
    { rewrite two_pow_plus. apply Qmult_lt_compat_r; [exact Pk|].
      rewrite two_pow_Z by lia. rewrite <- Zlt_Qlt. exact HB. }
    set (u := ulp_exp q).
    assert (Hu : u <= k).
    { unfold u, ulp_exp. apply Z.max_lub; [lia|].
      pose proof (ilog2Q_le q Hpos) as L.
      assert (Lt53 : (two_pow (ilog2Q q) < two_pow (53 + k))%Q) by lra.
      apply two_pow_lt_inv in Lt53. lia. }
    pose proof (two_pow_pos u) as Pu.
    assert (Ek : (two_pow k == two_pow (k - u) * two_pow u)%Q).
    { rewrite <- two_pow_plus. now replace (k - u + u) with k by ring. }
    set (s := (q / two_pow u)%Q). set (m := round_half_even s).
    assert (Hs_lo : (inject_Z (A * 2 ^ (k - u)) <= s)%Q).
    { unfold s. apply Qle_shift_div_l; [exact Pu|].
      rewrite inject_Z_mult, <- two_pow_Z by lia.
      rewrite <- Qmult_assoc, <- Ek. exact Hlo. }
    assert (Hs_hi : (s <= inject_Z (B * 2 ^ (k - u)))%Q).
    { unfold s. apply Qle_shift_div_r; [exact Pu|].
      rewrite inject_Z_mult, <- two_pow_Z by lia.
      rewrite <- Qmult_assoc, <- Ek. exact Hhi. }
    assert (Hm_lo : A * 2 ^ (k - u) <= m).
    { transitivity (Qfloor s); [|apply round_half_even_floor].
      rewrite <- (Qfloor_Z (A * 2 ^ (k - u))). now apply Qfloor_resp_le. }
    assert (Hm_hi : m <= B * 2 ^ (k - u))
      by (apply round_half_even_le; exact Hs_hi).
    assert (Hr_lo : (inject_Z A * two_pow k <= inject_Z m * two_pow u)%Q).
    { rewrite Ek, Qmult_assoc. apply Qmult_le_compat_r; [|lra].
      rewrite two_pow_Z by lia. rewrite <- inject_Z_mult, <- Zle_Qle.
      exact Hm_lo. }
    assert (Hr_hi : (inject_Z m * two_pow u <= inject_Z B * two_pow k)%Q).
    { rewrite Ek, Qmult_assoc. apply Qmult_le_compat_r; [|lra].
      rewrite two_pow_Z by lia. rewrite <- inject_Z_mult, <- Zle_Qle.
      exact Hm_hi. }
    assert (Hov : Qle_bool (two_pow 1024) (inject_Z m * two_pow u) = false).
    { apply not_true_is_false. intros E. apply Qle_bool_iff in E.
      pose proof (two_pow_le (53 + k) 1024 Hk') as Hmax. lra. }
    rewrite Hov. eexists. split; [reflexivity|].
    rewrite Qred_correct. split; assumption.
Qed.

Lemma F_between_int q a b :
  0 <= a -> b < 2 ^ 53 -> (inject_Z a <= q)%Q -> (q <= inject_Z b)%Q ->
  exists x, F q = Fin x /\ (inject_Z a <= x)%Q /\ (x <= inject_Z b)%Q.
Proof.
  intros Ha Hb Hlo Hhi.
  destruct (F_between q a b 0) as (x & E & H1 & H2); try lia.
  - change (two_pow 0) with 1%Q. now rewrite Qmult_1_r.
  - change (two_pow 0) with 1%Q. now rewrite Qmult_1_r.
  - exists x. change (two_pow 0) with 1%Q in H1, H2.
    rewrite Qmult_1_r in H1, H2. auto.
Qed.

Lemma fixedReadsBack_all :
  forallb fixedReadsBack (range 1000 4001) = true.
Proof. vm_compute. reflexivity. Qed.

Lemma fixedDigits_thousandths q n :
  Qfloor (q * ten_pow 3 + (1 # 2)) = n ->
  fixedDigits q 3 = fixedDigits (n # 1000) 3.
Proof.
  intros H. unfold fixedDigits. rewrite H.
  assert (E : Qfloor ((n # 1000) * ten_pow 3 + (1 # 2)) = n).
  { change (ten_pow 3) with (1000 # 1)%Q.
    unfold Qfloor, Qmult, Qplus. cbn [Qnum Qden].
    change (Z.pos (1000 * 1 * 2)) with 2000. change (Z.pos (1000 * 1)) with 1000.
    symmetry. apply (Z.div_unique _ 2000 n 1000); lia. }
  now rewrite E.
Qed.

Lemma toFixed_thousandths q :
  (1 <= q)%Q -> (q <= 5)%Q ->
  exists n, 1000 <= n <= 5000 /\
            Number_toFixed (Fin q) 3 = fixedDigits (n # 1000) 3.
Proof.
  intros Hlo Hhi. exists (Qfloor (q * ten_pow 3 + (1 # 2))).
  change (ten_pow 3) with (1000 # 1)%Q.
  split.
  - split.
    + assert (H : Qfloor (inject_Z 1000) <= Qfloor (q * (1000 # 1) + (1 # 2)))
        by (apply Qfloor_resp_le; change (inject_Z 1000) with (1000 # 1)%Q;
            lra).
      now rewrite Qfloor_Z in H.
    + assert (H : Qfloor (q * (1000 # 1) + (1 # 2)) <= Qfloor (inject_Z 5001))
        by (apply Qfloor_resp_le; change (inject_Z 5001) with (5001 # 1)%Q;
            lra).
      rewrite Qfloor_Z in H.
      destruct (Z.eq_dec (Qfloor (q * (1000 # 1) + (1 # 2))) 5001) as [E|];
        [|lia].
      pose proof (Qfloor_le (q * (1000 # 1) + (1 # 2))) as Hf.
      rewrite E in Hf. change (inject_Z 5001) with (5001 # 1)%Q in Hf. lra.
  - unfold Number_toFixed.
    assert (E1 : Qle_bool (ten_pow 21) (Qabs q) = false).
    { apply not_true_is_false. intros E. apply Qle_bool_iff in E.
      rewrite Qabs_pos in E by lra.
      change (ten_pow 21) with (1000000000000000000000 # 1)%Q in E. lra. }
    assert (E2 : is_neg q = false).
    { unfold is_neg. apply negb_false_iff, Qle_bool_iff. lra. }
    rewrite E1, E2. now apply fixedDigits_thousandths.
Qed.

Lemma randomAmount_range_aux q :
  (0 <= q)%Q -> (q < 1)%Q ->
  exists n x, 1000 <= n <= 5000 /\
              randomAmount (Fin q) = Fin x /\
              F (n # 1000) = Fin x /\
              (1 <= x)%Q /\ (x <= 5)%Q.
Proof.
  intros H0 H1. unfold randomAmount. cbn [Number_multiply].
  assert (B0 : (inject_Z 0 <= q * 4)%Q)
    by (change (inject_Z 0) with 0%Q; lra).
  assert (B4 : (q * 4 <= inject_Z 4)%Q)
    by (change (inject_Z 4) with 4%Q; lra).
  destruct (F_between_int (q * 4) 0 4 ltac:(lia) ltac:(lia) B0 B4)
    as (q1 & E1 & L1 & U1).
  change (inject_Z 0) with 0%Q in L1. change (inject_Z 4) with 4%Q in U1.
  rewrite E1. cbn [Number_add].
  assert (B1 : (inject_Z 1 <= q1 + 1)%Q)
    by (change (inject_Z 1) with 1%Q; lra).
  assert (B5 : (q1 + 1 <= inject_Z 5)%Q)
    by (change (inject_Z 5) with 5%Q; lra).
  destruct (F_between_int (q1 + 1) 1 5 ltac:(lia) ltac:(lia) B1 B5)
    as (q2 & E2 & L2 & U2).
  change (inject_Z 1) with 1%Q in L2. change (inject_Z 5) with 5%Q in U2.
  rewrite E2.
  destruct (toFixed_thousandths q2 L2 U2) as (n & Hn & E3).
  rewrite E3.
  assert (Hin : In n (range 1000 4001)) by (apply range_In; lia).
  pose proof (proj1 (forallb_forall _ _) fixedReadsBack_all n Hin) as Hb.
  apply number_same_eq in Hb. rewrite Hb.
  assert (C1 : (inject_Z 1 <= n # 1000)%Q) by (unfold Qle; cbn; lia).
  assert (C5 : (n # 1000 <= inject_Z 5)%Q) by (unfold Qle; cbn; lia).
  destruct (F_between_int (n # 1000) 1 5 ltac:(lia) ltac:(lia) C1 C5)
    as (x & E4 & L4 & U4).
  exists n, x. repeat split; trivial; lia.
Qed.

(** X12: for every draw in [0, 1) the gift amount is the double nearest to
    a multiple of a thousandth between 1 and 5, both ends included. *)
Theorem randomAmount_range q :
  (0 <= q)%Q -> (q < 1)%Q ->
  exists n x, 1000 <= n <= 5000 /\
              randomAmount (Fin q) = Fin x /\
              F (n # 1000) = Fin x /\
              (1 <= x)%Q /\ (x <= 5)%Q.
Proof. exact (randomAmount_range_aux q). Qed.

Lemma randomAmount_range_witness :
  exists n x, 1000 <= n <= 5000 /\
              randomAmount (Fin (1 # 2)) = Fin x /\
              F (n # 1000) = Fin x /\
              (1 <= x)%Q /\ (x <= 5)%Q.
Proof. apply (randomAmount_range (1 # 2)); [discriminate|reflexivity]. Defined.

Lemma weiInRange_all : forallb weiInRange (range 1000 4001) = true.
Proof. vm_compute. reflexivity. Qed.

(** Up to 15 decimals nothing leaves the integers below [2^53]. *)
Lemma minor_units_small x d :
  0 <= d <= 15 -> (1 <= x)%Q -> (x <= 5)%Q ->
  exists z, amountWei (VNumber (Fin x)) d = Ok z /\
            10 ^ d <= z <= 5 * 10 ^ d.
Proof.
  intros Hd L U. unfold amountWei, amountInteger. cbn [Number_].
  rewrite (Math_pow10_decimals d) by lia. cbn [Number_multiply].
  assert (P : 0 < 10 ^ d) by (apply Z.pow_pos_nonneg; lia).
  assert (P15 : 10 ^ d <= 10 ^ 15) by (apply Z.pow_le_mono_r; lia).
  assert (PQ : (0 < inject_Z (10 ^ d))%Q) by now apply inject_Z_lt_0.
  assert (B1 : (inject_Z (10 ^ d) <= x * inject_Z (10 ^ d))%Q).
  { rewrite <- (Qmult_1_l (inject_Z (10 ^ d))) at 1.
    apply Qmult_le_compat_r; [exact L|lra]. }
  assert (B5 : (x * inject_Z (10 ^ d) <= inject_Z (5 * 10 ^ d))%Q).
  { rewrite inject_Z_mult. apply Qmult_le_compat_r; [exact U|lra]. }
  assert (H53 : 5 * 10 ^ d < 2 ^ 53).
  { assert (5 * 10 ^ 15 < 2 ^ 53) by reflexivity. lia. }
  destruct (F_between_int _ (10 ^ d) (5 * 10 ^ d) ltac:(lia) H53 B1 B5)
    as (y & E & Ly & Uy).
  rewrite E. cbn [Math_floor].
  assert (Lz : 10 ^ d <= Qfloor y).
  { rewrite <- (Qfloor_Z (10 ^ d)). now apply Qfloor_resp_le. }
  assert (Uz : Qfloor y <= 5 * 10 ^ d).
  { rewrite <- (Qfloor_Z (5 * 10 ^ d)). now apply Qfloor_resp_le. }
  exists (Qfloor y). split; [|lia].
  apply BigInt_toString. lia.
Qed.

Lemma minor_units_gift q d :
  (0 <= q)%Q -> (q < 1)%Q -> 0 <= d <= 15 \/ d = 18 ->
  exists z, amountWei (VNumber (randomAmount (Fin q))) d = Ok z /\
            10 ^ d <= z <= 5 * 10 ^ d.
Proof.
  intros H0 H1 Hd.
  destruct (randomAmount_range_aux q H0 H1) as (n & x & Hn & E & En & L & U).
  rewrite E. destruct Hd as [Hd| ->].
  - now apply minor_units_small.
  - assert (Hin : In n (range 1000 4001)) by (apply range_In; lia).
    pose proof (proj1 (forallb_forall _ _) weiInRange_all n Hin) as Hb.
    unfold weiInRange in Hb. rewrite En in Hb.
    destruct (amountWei (VNumber (Fin x)) 18) as [z|e]; [|discriminate Hb].
    exists z. split; [reflexivity|]. lia.
Qed.

(** X13: whatever is drawn in [0, 1), the gift in the token's minor units
    lies between one token and five, for a token of at most 15 decimals
    and for one of 18. *)
Theorem gift_minor_units q d :
  (0 <= q)%Q -> (q < 1)%Q -> 0 <= d <= 15 \/ d = 18 ->
  exists z, amountWei (VNumber (randomAmount (Fin q))) d = Ok z /\
            10 ^ d <= z <= 5 * 10 ^ d.
Proof. exact (minor_units_gift q d). Qed.

Lemma gift_minor_units_witness :
  exists z, amountWei (VNumber (randomAmount (Fin (1 # 2)))) 18 = Ok z /\
            10 ^ 18 <= z <= 5 * 10 ^ 18.
Proof.
  apply (gift_minor_units (1 # 2) 18); [discriminate|reflexivity|].
  right. reflexivity.
Defined.

(** X14: every transfer [transfer.ts] asks the ERC20 wrapper for is one of
    the configured STRK token, of the drawn amount in the minor units of
    the decimals the token reported: between one token and five when the
    draw is in [0, 1) and the decimals are at most 15, or 18. *)
Theorem gift_transfer_bounded w state cb q tok rcp a :
  Math_random w = Fin q -> (0 <= q)%Q -> (q < 1)%Q ->
  In (TransferCall tok rcp a) (fst (run (TransferTs.handler w state cb))) ->
  tok = STRK w /\
  exists d, decimals w (STRK w) = Ok d /\
            amountWei (VNumber (randomAmount (Fin q))) d = Ok a /\
            (0 <= d <= 15 \/ d = 18 -> 10 ^ d <= a <= 5 * 10 ^ d).
Proof.
  intros Hq H0 H1 Hin.
  destruct (TransferTs_run w state cb) as [[_ Hrun]|(r0 & _ & Hrun)];
    rewrite Hrun in Hin; [destruct Hin|].
  pose proof (validateAndTransfer_events w (giftContent w state r0) cb) as Hev.
  rewrite Forall_forall in Hev.
  destruct (Hev _ Hin) as [Hbad|(Htok & _ & d & Hd & Ha)]; [discriminate Hbad|].
  change (tokenAddress (giftContent w state r0)) with (STRK w) in Htok, Hd.
  change (amount (giftContent w state r0))
    with (VNumber (randomAmount (Math_random w))) in Ha.
  rewrite Hq in Ha. split; [exact Htok|].
  exists d. split; [exact Hd|]. split; [exact Ha|].
  intros Hrange.
  destruct (minor_units_gift q d H0 H1 Hrange) as (z & Ez & Hz).
  rewrite Ha in Ez. injection Ez as <-. exact Hz.
Qed.

Lemma gift_transfer_bounded_witness :
  VString strkAddress = STRK (quietWorld greeting (extracted VUndefined) 18) /\
  exists d, decimals (quietWorld greeting (extracted VUndefined) 18)
              (STRK (quietWorld greeting (extracted VUndefined) 18)) = Ok d /\
            amountWei (VNumber (randomAmount (Fin 0))) d = Ok (10 ^ 18) /\
            (0 <= d <= 15 \/ d = 18 -> 10 ^ d <= 10 ^ 18 <= 5 * 10 ^ d).
Proof.
  apply (gift_transfer_bounded (quietWorld greeting (extracted VUndefined) 18)
           None true 0 (VString strkAddress) (VString aliceAddress) (10 ^ 18)).
  - reflexivity.
  - discriminate.
  - reflexivity.
  - vm_compute. right. left. reflexivity.
Defined.

Lemma gift_validation_witness :
  run (TransferTs.handler (quietWorld greeting (extracted VUndefined) 18)
         None true) =
  ([Decimals (VString strkAddress);
    TransferCall (VString strkAddress) (VString aliceAddress) (10 ^ 18);
    Execute [10 ^ 18];
    Callback (Transferred (VNumber (Fin 1)))], Ok true).
Proof.
  rewrite (gift_validation (quietWorld greeting (extracted VUndefined) 18)
             None true aliceAddress).
  - vm_compute. reflexivity.
  - apply regexMatch_Some. vm_compute. reflexivity.
Defined.

Lemma lucky_money_records_first_witness :
  exists rest,
    fst (run (LuckyMoney.handler
                (quietWorld greeting (extracted (VString "0.001")) 18)
                None true)) =
    AddRecipient (VString aliceAddress) "user" (VString "0.001") :: rest /\
    count isAddRecipient rest = 0%nat /\
    (true = false ->
     rest = [] /\
     snd (run (LuckyMoney.handler
                 (quietWorld greeting (extracted (VString "0.001")) 18)
                 None true)) = Ok false).
Proof.
  apply (lucky_money_records_first
           (quietWorld greeting (extracted (VString "0.001")) 18)
           None true aliceAddress).
  apply regexMatch_Some. vm_compute. reflexivity.
Defined.

Lemma lucky_validation_witness :
  run (LuckyMoney.handler (quietWorld greeting (extracted (VBool true)) 18)
         None true) =
  ([AddRecipient (VString aliceAddress) "user" (VBool true);
    Callback InvalidContent], Ok false).
Proof.
  apply (lucky_validation (quietWorld greeting (extracted (VBool true)) 18)
           None true aliceAddress).
  - apply regexMatch_Some. vm_compute. reflexivity.
  - reflexivity.
  - reflexivity.
Defined.


(** ** When the conversion throws *)

(** With enough fuel [digitCountAux] counts every digit. *)
Lemma digitCountAux_upper fuel z :
  0 <= z < 2 ^ (Z.of_nat fuel + 1) -> z < 10 ^ digitCountAux fuel z.
Proof.
  revert z. induction fuel as [|fuel IH]; intros z Hz; cbn [digitCountAux].
  - change (2 ^ (Z.of_nat 0 + 1)) with 2 in Hz. simpl. lia.
  - destruct (Z.ltb_spec z 10) as [Hlt|Hge]; [simpl; lia|].
    assert (Hq : 0 <= z / 10 < 2 ^ (Z.of_nat fuel + 1)).
    { split; [apply Z.div_pos; lia|].
      apply Z.div_lt_upper_bound; [lia|].
      replace (Z.of_nat (S fuel) + 1) with (Z.succ (Z.of_nat fuel + 1)) in Hz
        by lia.
      rewrite Z.pow_succ_r in Hz by lia. lia. }
    specialize (IH _ Hq).
    pose proof (digitCountAux_bounds fuel (z / 10)) as [H1 _].
    { apply Z.div_le_lower_bound; lia. }
    replace (1 + digitCountAux fuel (z / 10))
      with (Z.succ (digitCountAux fuel (z / 10))) by lia.
    rewrite Z.pow_succ_r by lia.
    pose proof (Z.div_mod z 10 ltac:(lia)) as Hdm.
    pose proof (Z.mod_pos_bound z 10 ltac:(lia)). lia.
Qed.

Lemma digitCount_upper z : 1 <= z -> z < 10 ^ digitCount z.
Proof.
  intros Hz. unfold digitCount. apply digitCountAux_upper.
  rewrite Z2Nat.id by apply Z.log2_nonneg.
  destruct (Z.log2_spec z ltac:(lia)) as [_ H].
  replace (Z.log2 z + 1) with (Z.succ (Z.log2 z)) by lia. lia.
Qed.

Lemma digitCount_large z : 10 ^ 21 <= z -> 22 <= digitCount z.
Proof.
  intros Hz. pose proof (digitCount_upper z ltac:(lia)) as H.
  destruct (Z_le_gt_dec 22 (digitCount z)) as [|Hlt]; [assumption|].
  assert (10 ^ digitCount z <= 10 ^ 21).
  { destruct (Z_le_gt_dec 0 (digitCount z)).
    - apply Z.pow_le_mono_r; lia.
    - rewrite Z.pow_neg_r by lia. lia. }
  lia.
Qed.

(** The exponent a search returns is the one it started from, or the next
    when the digits carried over. *)
Lemma shortestFrom_exponent fuel x n0 k :
  n0 <= fst (fst (shortestFrom fuel x n0 k)) <= n0 + 1.
Proof.
  revert k. induction fuel as [|fuel IH]; intros k; cbn [shortestFrom].
  - unfold enclosing.
    set (lo := Qfloor (x / ten_pow (n0 - k))).
    destruct (lo + 1 =? 10 ^ k);
      repeat match goal with
        | |- context [nearer ?a ?b ?c ?d] =>
            destruct (nearer_either a b c d) as [-> | ->]
        | |- context [if ?b then _ else _] => destruct b
        end; cbn [fst snd]; lia.
  - unfold enclosing.
    set (lo := Qfloor (x / ten_pow (n0 - k))).
    destruct (lo + 1 =? 10 ^ k);
      repeat match goal with
        | |- context [nearer ?a ?b ?c ?d] =>
            destruct (nearer_either a b c d) as [-> | ->]
        | |- context [if ?b then _ else _] => destruct b
        end; cbn [fst snd]; try lia; apply IH.
Qed.

(** Strings in exponent notation are no integer literals. *)
Lemma uint_of_string_exponent a b :
  NilEmpty.uint_of_string (a ++ String "e" b) = None.
Proof.
  induction a as [|c a IH]; cbn [append NilEmpty.uint_of_string].
  - now destruct (NilEmpty.uint_of_string b).
  - now rewrite IH.
Qed.

Lemma parseDigits_exponent a b : parseDigits (a ++ String "e" b) = None.
Proof.
  unfold parseDigits, NilZero.uint_of_string.
  rewrite uint_of_string_exponent. now destruct (a ++ String "e" b)%string.
Qed.

Lemma trimEnd_app_plain a b :
  allPlain a = true -> trimEnd b = b -> b <> EmptyString ->
  trimEnd (a ++ b) = (a ++ b)%string.
Proof.
  intros Ha Hb Hne. induction a as [|c a IH]; cbn [append]; [exact Hb|].
  cbn [allPlain] in Ha. apply andb_prop in Ha as [Hc Ha].
  cbn [trimEnd]. rewrite (IH Ha), (isPlain_not_white c Hc). reflexivity.
Qed.

Lemma trimEnd_exponent m t :
  allPlain m = true -> allDigits t = true ->
  trimEnd (m ++ String "e" (String "+" t)) =
  (m ++ String "e" (String "+" t))%string.
Proof.
  intros Hm Ht. apply trimEnd_app_plain; [exact Hm| |discriminate].
  cbn [trimEnd]. rewrite (trimEnd_plain t (allDigits_allPlain t Ht)).
  reflexivity.
Qed.

Lemma nonDecimalLiteral_exponent c0 m t :
  allPlain m = true ->
  nonDecimalLiteral (String c0 (m ++ String "e" t)) = None.
Proof.
  intros Hm. destruct m as [|p m]; cbn [append].
  - destruct t; each_char c0; reflexivity.
  - cbn [allPlain] in Hm. apply andb_prop in Hm as [Hp _].
    destruct (isPlain_not_prefix_letter p Hp) as (Hx & Ho & Hb).
    destruct (m ++ String "e" t)%string eqn:E;
      [destruct m; discriminate E|].
    each_char c0; try reflexivity.
    unfold nonDecimalLiteral. now rewrite Hx, Ho, Hb.
Qed.

Lemma BigInt_exponent c0 m t :
  isDigit c0 = true -> allPlain m = true -> allDigits t = true ->
  BigInt (String c0 (m ++ String "e" (String "+" t))) = Throw SyntaxError /\
  BigInt (String "-" (String c0 (m ++ String "e" (String "+" t)))) =
  Throw SyntaxError.
Proof.
  intros Hc Hm Ht.
  pose proof (isPlain_not_white c0 (isDigit_isPlain c0 Hc)) as Hw.
  pose proof (trimEnd_exponent m t Hm Ht) as He.
  pose proof (parseDigits_exponent (String c0 m) (String "+" t)) as Hp.
  cbn [append] in Hp.
  split; unfold BigInt, trim.
  - cbn [trimStart]. rewrite Hw. cbn [trimEnd]. rewrite He, Hw. cbn [andb].
    change ((String c0 (m ++ String "e" (String "+" t)) =? "")%string)
      with false. cbv iota.
    rewrite (nonDecimalLiteral_exponent c0 m _ Hm).
    revert Hc Hp. each_char c0; intros Hc Hp; try discriminate Hc;
      now rewrite Hp.
  - cbn [trimStart]. change (isWhiteSpace "-") with false. cbv iota.
    cbn [trimEnd]. rewrite He, Hw. cbn [andb].
    change (isWhiteSpace "-") with false. cbn [andb].
    change ((String "-" (String c0 (m ++ String "e" (String "+" t)))
             =? "")%string) with false. cbv iota.
    assert (En : nonDecimalLiteral
                   (String "-" (String c0 (m ++ String "e" (String "+" t))))
                 = None).
    { destruct (m ++ String "e" (String "+" t))%string; reflexivity. }
    rewrite En. now rewrite Hp.
Qed.

Lemma allDigits_substring n m s :
  allDigits s = true -> allDigits (String.substring n m s) = true.
Proof.
  revert n m. induction s as [|c s IH]; intros n m H.
  - destruct n, m; reflexivity.
  - cbn [allDigits] in H. apply andb_prop in H as [Hc Hs].
    destruct n as [|n]; [destruct m as [|m]|]; cbn [String.substring].
    + reflexivity.
    + cbn [allDigits]. now rewrite Hc, IH.
    + now apply IH.
Qed.

(** From [10^21] on, Number::toString writes an exponent. *)
Lemma positive_toString_exponent x :
  22 <= decimalExponent x ->
  exists c0 m t,
    isDigit c0 = true /\ allPlain m = true /\ allDigits t = true /\
    positive_toString x = String c0 (m ++ String "e" (String "+" t)).
Proof.
  intros Hn. unfold positive_toString, shortest.
  pose proof (shortestFrom_exponent 16 x (decimalExponent x) 1) as H.
  destruct (shortestFrom 16 x (decimalExponent x) 1) as [[n k] s].
  cbn [fst] in H.
  assert (E21 : (n <=? 21) = false) by (apply Z.leb_gt; lia).
  assert (E0 : (n <=? 0) = false) by (apply Z.leb_gt; lia).
  rewrite E21, E0, !andb_false_r.
  assert (Es : (n - 1 <? 0) = false) by (apply Z.ltb_ge; lia).
  rewrite Es.
  pose proof (allDigits_digitsOf s) as Hd.
  pose proof (allDigits_digitsOf (Z.abs (n - 1))) as He.
  destruct (digitsOf_cons s) as (c & t & Eds). rewrite Eds in *.
  cbn [allDigits] in Hd. apply andb_prop in Hd as [Hc Ht].
  exists c. destruct (k =? 1).
  - exists t, (digitsOf (Z.abs (n - 1))).
    split; [exact Hc|]. split; [now apply allDigits_allPlain|].
    split; [exact He|]. reflexivity.
  - exists (String "." (substringFrom 1 (String c t))),
           (digitsOf (Z.abs (n - 1))).
    split; [exact Hc|]. split; [|split; [exact He|]].
    + cbn [allPlain]. change (isPlain ".") with true. cbn [andb].
      apply allDigits_allPlain. unfold substringFrom.
      apply allDigits_substring. cbn [allDigits]. now rewrite Hc, Ht.
    + cbn [String.substring]. now destruct t.
Qed.

Lemma decimalExponent_large z :
  10 ^ 21 <= z -> 22 <= decimalExponent (inject_Z z).
Proof.
  intros Hz. unfold decimalExponent.
  assert (E : Qle_bool 1 (inject_Z z) = true).
  { apply Qle_bool_iff. change 1%Q with (inject_Z 1). rewrite <- Zle_Qle. lia. }
  rewrite E, Qfloor_Z. now apply digitCount_large.
Qed.

(** An integer of magnitude [10^21] or more is written with an exponent,
    which [BigInt] does not read. *)
Lemma BigInt_toString_large z :
  10 ^ 21 <= Z.abs z ->
  BigInt (Number_toString (Fin (inject_Z z))) = Throw SyntaxError.
Proof.
  intros Hz. unfold Number_toString.
  assert (E0 : is_zero (inject_Z z) = false).
  { apply not_true_is_false. intros E. apply Qeq_bool_iff in E.
    apply (inject_Z_injective z 0) in E. lia. }
  rewrite E0. unfold is_neg.
  destruct (Qle_bool 0 (inject_Z z)) eqn:L; cbn [negb].
  - apply Qle_bool_iff in L. change 0%Q with (inject_Z 0) in L.
    rewrite <- Zle_Qle in L.
    destruct (positive_toString_exponent (inject_Z z))
      as (c0 & m & t & Hc & Hm & Ht & ->).
    { apply decimalExponent_large. lia. }
    now apply BigInt_exponent.
  - assert (Hneg : z < 0).
    { destruct (Z_lt_le_dec z 0) as [|Hge]; [assumption|].
      assert (Qle_bool 0 (inject_Z z) = true).
      { apply Qle_bool_iff. change 0%Q with (inject_Z 0).
        now rewrite <- Zle_Qle. }
      congruence. }
    change (- inject_Z z)%Q with (inject_Z (- z)).
    destruct (positive_toString_exponent (inject_Z (- z)))
      as (c0 & m & t & Hc & Hm & Ht & ->).
    { apply decimalExponent_large. lia. }
    now apply BigInt_exponent.
Qed.

(** [ilog2Q] never underestimates either. *)
Lemma ilog2Q_lt q : (0 < q)%Q -> (q < two_pow (ilog2Q q + 1))%Q.
Proof.
  intros Hq. unfold ilog2Q.
  set (g := Z.log2 (Qnum q) - Z.log2 (Zpos (Qden q))).
  destruct (Qle_bool (two_pow g) q) eqn:E.
  - destruct q as [n d]. unfold g. cbn [Qnum Qden] in *.
    assert (Hn : 0 < n) by (unfold Qlt in Hq; simpl in Hq; lia).
    destruct (Z.log2_spec n Hn) as [_ Ln].
    destruct (Z.log2_spec (Z.pos d) (Pos2Z.is_pos d)) as [Ld _].
    pose proof (Z.log2_nonneg n). pose proof (Z.log2_nonneg (Z.pos d)).
    replace (Z.log2 n - Z.log2 (Z.pos d) + 1)
      with (Z.succ (Z.log2 n) - Z.log2 (Z.pos d)) by ring.
    unfold two_pow. rewrite Qpower_minus by discriminate.
    fold (two_pow (Z.succ (Z.log2 n))) (two_pow (Z.log2 (Z.pos d))).
    rewrite !two_pow_Z by lia.
    apply Qlt_shift_div_l.
    + change 0%Q with (inject_Z 0). rewrite <- Zlt_Qlt.
      apply Z.pow_pos_nonneg; lia.
    + unfold Qlt, Qmult, inject_Z. cbn [Qnum Qden].
      rewrite !Z.mul_1_r, Pos.mul_1_r.
      assert (0 < 2 ^ Z.log2 (Z.pos d)) by (apply Z.pow_pos_nonneg; lia).
      nia.
  - replace (g - 1 + 1) with g by ring.
    destruct (Qlt_le_dec q (two_pow g)) as [H|H]; [exact H|].
    apply Qle_bool_iff in H. congruence.
Qed.

Lemma binary64_nonneg x : binary64 x -> (0 <= x)%Q.
Proof.
  intros (a & e & Ha & _ & -> & _).
  apply Qmult_le_0_compat; [|apply Qlt_le_weak, two_pow_pos].
  change 0%Q with (inject_Z 0). rewrite <- Zle_Qle. lia.
Qed.

Lemma binary64_F x : binary64 x -> F x = Fin (Qred x).
Proof. intros (a & e & Ha & He & Hx & Hmax). now apply (F_exact x a e). Qed.

(** What [F] returns is a double. *)
Lemma F_binary64 q r : F q = Fin r -> binary64 (Qabs r).
Proof.
  unfold F. destruct (Qeq_bool q 0) eqn:E0.
  - intros [= <-]. exists 0, 0. repeat split; lia.
  - apply Qeq_bool_neq in E0.
    assert (Hpos : (0 < Qabs q)%Q).
    { pose proof (Qabs_nonneg q) as H.
      destruct (Qlt_le_dec 0 (Qabs q)) as [|H']; [assumption|].
      elim E0. apply Qabs_Qle_condition in H'. lra. }
    set (a := Qabs q) in *. set (u := ulp_exp a).
    set (m := round_half_even (a / two_pow u)).
    pose proof (two_pow_pos u) as Pu.
    assert (Hm0 : 0 <= m).
    { transitivity (Qfloor (a / two_pow u)); [|apply round_half_even_floor].
      rewrite <- (Qfloor_Z 0). apply Qfloor_resp_le.
      apply Qle_shift_div_l; [exact Pu|]. rewrite Qmult_0_l. lra. }
    assert (Hu : -1074 <= u) by (unfold u, ulp_exp; lia).
    assert (Hm53 : m <= 2 ^ 53).
    { apply round_half_even_le. apply Qle_shift_div_r; [exact Pu|].
      rewrite <- two_pow_Z by lia. rewrite <- two_pow_plus.
      pose proof (ilog2Q_lt a Hpos) as L.
      assert (ilog2Q a + 1 <= 53 + u) by (unfold u, ulp_exp; lia).
      pose proof (two_pow_le _ _ H). lra. }
    destruct (Qle_bool (two_pow 1024) (inject_Z m * two_pow u)) eqn:Hov;
      [discriminate|].
    assert (Hmax : (inject_Z m * two_pow u < two_pow 1024)%Q).
    { destruct (Qlt_le_dec (inject_Z m * two_pow u) (two_pow 1024))
        as [H|H]; [exact H|].
      apply Qle_bool_iff in H. congruence. }
    assert (Hr0 : (0 <= inject_Z m * two_pow u)%Q).
    { apply Qmult_le_0_compat; [|lra].
      change 0%Q with (inject_Z 0). rewrite <- Zle_Qle. lia. }
    intros [= <-].
    assert (Eabs : (Qabs (Qred (if Qle_bool 0 q
                                then inject_Z m * two_pow u
                                else - (inject_Z m * two_pow u)))
                    == inject_Z m * two_pow u)%Q).
    { rewrite Qred_correct. destruct (Qle_bool 0 q).
      - now apply Qabs_pos.
      - rewrite Qabs_opp. now apply Qabs_pos. }
    destruct (Z.eq_dec m (2 ^ 53)) as [Em|Hne].
    + exists (2 ^ 52), (u + 1). repeat split; try lia.
      * rewrite Eabs, Em, two_pow_plus.
        change (two_pow 1) with 2%Q.
        change (inject_Z (2 ^ 53)) with (inject_Z (2 ^ 52) * 2)%Q. ring.
      * now rewrite Eabs.
    + exists m, u. repeat split; try lia. 
      * exact Eabs.
      * now rewrite Eabs.
Qed.

Lemma binary64_le_int x a e :
  0 <= a -> e <= 0 -> (x == inject_Z a * two_pow e)%Q -> (x <= inject_Z a)%Q.
Proof.
  intros Ha He ->.
  assert (H0 : (0 <= inject_Z a)%Q)
    by (change 0%Q with (inject_Z 0); rewrite <- Zle_Qle; exact Ha).
  assert (H1 : (two_pow e <= 1)%Q)
    by (change 1%Q with (two_pow 0); now apply two_pow_le).
  pose proof (two_pow_pos e) as Pe.
  generalize dependent (two_pow e). generalize dependent (inject_Z a).
  intros. nra.
Qed.

Lemma binary64_int z : 0 <= z < 2 ^ 53 -> binary64 (inject_Z z).
Proof.
  intros Hz. exists z, 0. repeat split; try lia.
  - change (two_pow 0) with 1%Q. now rewrite Qmult_1_r.
  - apply below_overflow. lia.
Qed.

(** [Math.floor] of a double is a double, and so is its ceiling. *)
Lemma binary64_floor x : binary64 x -> binary64 (inject_Z (Qfloor x)).
Proof.
  intros Hx. pose proof (binary64_nonneg x Hx) as H0.
  destruct Hx as (a & e & Ha & He & Hx & Hmax).
  destruct (Z_le_gt_dec 0 e) as [Hpos|Hneg].
  - assert (E : (x == inject_Z (a * 2 ^ e))%Q)
      by (rewrite Hx, inject_Z_mult, two_pow_Z by lia; reflexivity).
    rewrite (Qfloor_comp _ _ E), Qfloor_Z.
    exists a, e. repeat split; try lia.
    + now rewrite inject_Z_mult, two_pow_Z by lia.
    + now rewrite <- E.
  - apply binary64_int. split.
    + rewrite <- (Qfloor_Z 0). now apply Qfloor_resp_le.
    + assert (Hle : (x <= inject_Z a)%Q)
        by (apply (binary64_le_int x a e); trivial; lia).
      apply Qfloor_resp_le in Hle. rewrite Qfloor_Z in Hle. lia.
Qed.

Lemma binary64_ceiling x : binary64 x -> binary64 (inject_Z (Qceiling x)).
Proof.
  intros Hx. pose proof (binary64_nonneg x Hx) as H0.
  destruct Hx as (a & e & Ha & He & Hx & Hmax).
  destruct (Z_le_gt_dec 0 e) as [Hpos|Hneg].
  - assert (E : (x == inject_Z (a * 2 ^ e))%Q)
      by (rewrite Hx, inject_Z_mult, two_pow_Z by lia; reflexivity).
    rewrite (Qceiling_comp _ _ E), Qceiling_Z.
    exists a, e. repeat split; try lia.
    + now rewrite inject_Z_mult, two_pow_Z by lia.
    + now rewrite <- E.
  - apply binary64_int. split.
    + rewrite <- (Qceiling_Z 0). now apply Qceiling_resp_le.
    + assert (Hle : (x <= inject_Z a)%Q)
        by (apply (binary64_le_int x a e); trivial; lia).
      apply Qceiling_resp_le in Hle. rewrite Qceiling_Z in Hle. lia.
Qed.

Lemma binary64_eq x y : (x == y)%Q -> binary64 x -> binary64 y.
Proof.
  intros E (a & e & Ha & He & Hx & Hmax). exists a, e.
  repeat split; try lia; now rewrite <- E.
Qed.

(** A double written with all its integer digits rounds to itself. *)
Lemma roundsTo_self p n :
  binary64 (inject_Z p) -> roundsTo (inject_Z p) n n p = true.
Proof.
  intros Hp. unfold roundsTo. rewrite Z.sub_diag.
  change (ten_pow 0) with 1%Q.
  assert (E : (inject_Z p * 1 == inject_Z p)%Q) by ring.
  rewrite (binary64_F _ (binary64_eq _ _ (Qeq_sym _ _ E) Hp)).
  cbn [number_eqb]. apply Qeq_bool_iff. now rewrite Qred_correct.
Qed.

(** [10^21] is a double, so nothing below it rounds to it. *)
Lemma roundsTo_carry p k :
  p < 10 ^ 21 -> 1 <= k <= 22 ->
  roundsTo (inject_Z p) 22 k (10 ^ (k - 1)) = false.
Proof.
  intros Hp Hk. apply not_true_is_false. unfold roundsTo.
  assert (E : (inject_Z (10 ^ (k - 1)) * ten_pow (22 - k)
               == inject_Z (5 ^ 21) * two_pow 21)%Q).
  { rewrite ten_pow_Z by lia. rewrite <- inject_Z_mult, <- Z.pow_add_r by lia.
    replace (k - 1 + (22 - k)) with 21 by ring. reflexivity. }
  assert (H53 : 0 <= 5 ^ 21 < 2 ^ 53) by (split; [discriminate|reflexivity]).
  assert (Hmax : (inject_Z (10 ^ (k - 1)) * ten_pow (22 - k)
                  < two_pow 1024)%Q) by (rewrite E; reflexivity).
  rewrite (F_exact _ (5 ^ 21) 21 H53 ltac:(discriminate) E Hmax).
  cbn [number_eqb]. intros H. apply Qeq_bool_iff in H.
  rewrite Qred_correct, E in H.
  assert (E' : (inject_Z (5 ^ 21) * two_pow 21 == inject_Z (10 ^ 21))%Q)
    by reflexivity.
  rewrite E' in H.
  pose proof (proj1 (inject_Z_injective (10 ^ 21) p) H) as H'.
  rewrite <- H' in Hp. exact (Z.lt_irrefl _ Hp).
Qed.

Lemma decimalExponent_small p :
  1 <= p < 10 ^ 21 -> 1 <= decimalExponent (inject_Z p) <= 21.
Proof.
  intros Hp. unfold decimalExponent.
  assert (E : Qle_bool 1 (inject_Z p) = true).
  { apply Qle_bool_iff. change 1%Q with (inject_Z 1). rewrite <- Zle_Qle. lia. }
  rewrite E, Qfloor_Z. unfold digitCount.
  destruct (digitCountAux_bounds (Z.to_nat (Z.log2 p)) p) as [H1 H2]; [lia|].
  split; [exact H1|].
  destruct (Z_le_gt_dec (digitCountAux (Z.to_nat (Z.log2 p)) p) 21) as [|Hgt];
    [assumption|].
  assert (10 ^ 21 <= 10 ^ (digitCountAux (Z.to_nat (Z.log2 p)) p - 1))
    by (apply Z.pow_le_mono_r; lia).
  lia.
Qed.

Section ShortestOfDouble.

Variable p : Z.
Hypothesis Hp : 1 <= p < 10 ^ 21.
Hypothesis Hdouble : binary64 (inject_Z p).
Variable n0 : Z.
Hypothesis Hn0 : 1 <= n0 <= 21.

(** The search stops at [n0] digits at the latest, and never carries
    over into [10^21]. *)
Lemma shortestFrom_double fuel k :
  1 <= k <= n0 ->
  let '(n, k', s) := shortestFrom fuel (inject_Z p) n0 k in
  k' <= n /\ n <= 21 /\ 0 <= s.
Proof.
  revert k. induction fuel as [|fuel IH]; intros k Hk; cbn [shortestFrom];
    unfold enclosing; set (lo := Qfloor (inject_Z p / ten_pow (n0 - k)));
    (assert (Hlo : 0 <= lo);
     [unfold lo; rewrite <- (Qfloor_Z 0); apply Qfloor_resp_le;
      apply Qle_shift_div_l; [apply ten_pow_pos|];
      rewrite Qmult_0_l; apply Qlt_le_weak, inject_Z_lt_0; lia|]);
    cbn [fst snd];
    (assert (Hlast : k = n0 -> roundsTo (inject_Z p) n0 k lo = true);
     [intros ->; unfold lo; rewrite Z.sub_diag;
      assert (E : Qfloor (inject_Z p / ten_pow 0) = p)
        by (rewrite <- (Qfloor_Z p) at 2; apply Qfloor_comp;
            change (ten_pow 0) with 1%Q; field);
      rewrite E; now apply roundsTo_self|]);
    (assert (Hpow : 0 <= 10 ^ (k - 1)) by (apply Z.pow_nonneg; lia));
    destruct (lo + 1 =? 10 ^ k) eqn:Ecarry; cbn [fst snd].
  - (* no fuel, carry *)
    destruct (roundsTo (inject_Z p) n0 k lo) eqn:E1;
      destruct (roundsTo (inject_Z p) (n0 + 1) k (10 ^ (k - 1))) eqn:E2;
      cbn [andb fst snd];
      try (destruct (nearer_either (inject_Z p) k (n0, lo)
                       (n0 + 1, 10 ^ (k - 1))) as [-> | ->]; cbn [fst snd]);
      try (repeat split; lia);
      (destruct (Z.eq_dec n0 21) as [->|];
       [rewrite roundsTo_carry in E2 by lia; discriminate E2
       |repeat split; lia]).
  - (* no fuel, no carry *)
    destruct (roundsTo (inject_Z p) n0 k lo) eqn:E1;
      destruct (roundsTo (inject_Z p) n0 k (lo + 1)) eqn:E2;
      cbn [andb fst snd];
      try (destruct (nearer_either (inject_Z p) k (n0, lo) (n0, lo + 1))
             as [-> | ->]; cbn [fst snd]);
      repeat split; lia.
  - (* fuel, carry *)
    destruct (roundsTo (inject_Z p) n0 k lo) eqn:E1;
      destruct (roundsTo (inject_Z p) (n0 + 1) k (10 ^ (k - 1))) eqn:E2;
      cbn [andb fst snd];
      try (destruct (nearer_either (inject_Z p) k (n0, lo)
                       (n0 + 1, 10 ^ (k - 1))) as [-> | ->]; cbn [fst snd]);
      try (repeat split; lia);
      try (destruct (Z.eq_dec n0 21) as [->|];
           [rewrite roundsTo_carry in E2 by lia; discriminate E2
           |repeat split; lia]).
    apply IH. destruct (Z.eq_dec k n0) as [Ek|]; [|lia].
    discriminate (Hlast Ek).
  - (* fuel, no carry *)
    destruct (roundsTo (inject_Z p) n0 k lo) eqn:E1;
      destruct (roundsTo (inject_Z p) n0 k (lo + 1)) eqn:E2;
      cbn [andb fst snd];
      try (destruct (nearer_either (inject_Z p) k (n0, lo) (n0, lo + 1))
             as [-> | ->]; cbn [fst snd]);
      try (repeat split; lia).
    apply IH. destruct (Z.eq_dec k n0) as [Ek|]; [|lia].
    discriminate (Hlast Ek).
Qed.

End ShortestOfDouble.

(** Below [10^21] a whole double is written with digits only. *)
Lemma positive_toString_digits p :
  1 <= p < 10 ^ 21 -> binary64 (inject_Z p) ->
  exists m, 0 <= m /\ positive_toString (inject_Z p) = digitsOf m.
Proof.
  intros Hp Hd. unfold positive_toString, shortest.
  pose proof (decimalExponent_small p Hp) as Hn.
  pose proof (shortestFrom_double p Hp Hd _ Hn 16 1 ltac:(lia)) as H.
  destruct (shortestFrom 16 (inject_Z p) (decimalExponent (inject_Z p)) 1)
    as [[n k] s].
  destruct H as (H1 & H2 & H3).
  assert (E : ((k <=? n) && (n <=? 21))%bool = true).
  { apply andb_true_intro. split; apply Z.leb_le; lia. }
  rewrite E. exists (s * 10 ^ (n - k)). split; [|reflexivity].
  apply Z.mul_nonneg_nonneg; [exact H3|]. apply Z.pow_nonneg. lia.
Qed.

Lemma BigInt_toString_small r :
  binary64 (Qabs r) -> Z.abs (Qfloor r) < 10 ^ 21 ->
  exists m, BigInt (Number_toString (Fin (inject_Z (Qfloor r)))) = Ok m.
Proof.
  intros Hd Hz. set (z := Qfloor r) in *.
  pose proof (Qfloor_le r) as Hle. pose proof (Qlt_floor r) as Hlt.
  fold z in Hle, Hlt.
  destruct (Z.lt_trichotomy z 0) as [Hneg|[E0|Hpos]].
  - (* a negative integer *)
    assert (Hr : (r < 0)%Q).
    { eapply Qlt_le_trans; [exact Hlt|].
      change 0%Q with (inject_Z 0). rewrite <- Zle_Qle. lia. }
    assert (Ha : (Qabs r == - r)%Q) by (apply Qabs_neg; lra).
    pose proof (binary64_ceiling _ (binary64_eq _ _ Ha Hd)) as Hc.
    assert (Ec : Qceiling (- r) = - z).
    { unfold Qceiling, z. f_equal. apply Qfloor_comp, Qopp_opp. }
    rewrite Ec in Hc.
    destruct (positive_toString_digits (- z) ltac:(lia) Hc) as (m & Hm & E).
    exists (- m). unfold Number_toString.
    assert (Ez : is_zero (inject_Z z) = false).
    { apply not_true_is_false. intros H. apply Qeq_bool_iff in H.
      apply (inject_Z_injective z 0) in H. lia. }
    assert (En : is_neg (inject_Z z) = true).
    { unfold is_neg. apply negb_true_iff, not_true_is_false. intros L.
      apply Qle_bool_iff in L. change 0%Q with (inject_Z 0) in L.
      rewrite <- Zle_Qle in L. lia. }
    rewrite Ez, En. change (- inject_Z z)%Q with (inject_Z (- z)).
    rewrite E. now apply BigInt_minus_digitsOf.
  - exists 0. rewrite E0. reflexivity.
  - (* a positive integer *)
    assert (Hr : (0 < r)%Q).
    { eapply Qlt_le_trans; [|exact Hle]. now apply inject_Z_lt_0. }
    assert (Ha : (Qabs r == r)%Q) by (apply Qabs_pos; lra).
    pose proof (binary64_floor _ (binary64_eq _ _ Ha Hd)) as Hf. fold z in Hf.
    destruct (positive_toString_digits z ltac:(lia) Hf) as (m & Hm & E).
    exists m. unfold Number_toString.
    assert (Ez : is_zero (inject_Z z) = false).
    { apply not_true_is_false. intros H. apply Qeq_bool_iff in H.
      apply (inject_Z_injective z 0) in H. lia. }
    assert (En : is_neg (inject_Z z) = false).
    { unfold is_neg. apply negb_false_iff, Qle_bool_iff.
      change 0%Q with (inject_Z 0). rewrite <- Zle_Qle. lia. }
    rewrite Ez, En, E. now apply BigInt_digitsOf.
Qed.

Lemma Number_multiply_F x y r :
  Number_multiply x y = Fin r -> exists q, F q = Fin r.
Proof.
  destruct x as [|s|a], y as [|t|b]; cbn [Number_multiply];
    try discriminate; try (destruct (is_zero _); discriminate).
  intros H. now exists (a * b)%Q.
Qed.

Lemma amountInteger_floor v d y :
  amountInteger v d = Fin y ->
  exists r, binary64 (Qabs r) /\ y = inject_Z (Qfloor r).
Proof.
  unfold amountInteger.
  destruct (Number_multiply (Number_ v) (Math_pow10 (Number_of_BigInt d)))
    as [|s|r] eqn:E; cbn [Math_floor]; try discriminate.
  intros [= <-]. exists r. split; [|reflexivity].
  destruct (Number_multiply_F _ _ _ E) as (q & Hq).
  exact (F_binary64 q r Hq).
Qed.

(** X15: the conversion to minor units throws exactly when [amountInteger] is
    not finite or has magnitude [10^21] or more, and then a SyntaxError:
    [toString] writes such a number as a word or with an exponent, which
    [BigInt] does not read.  In every other case it yields an integer. *)
Theorem amountWei_throws v d e :
  amountWei v d = Throw e <->
  e = SyntaxError /\ beyondDigits (amountInteger v d).
Proof.
  unfold amountWei.
  destruct (amountInteger v d) as [|s|y] eqn:EI.
  - split; [intros [= <-]; now split|now intros [-> _]].
  - destruct s; (split; [intros [= <-]; now split|now intros [-> _]]).
  - destruct (amountInteger_floor v d y EI) as (r & Hd & ->).
    cbn [beyondDigits].
    change (Qabs (inject_Z (Qfloor r))) with (inject_Z (Z.abs (Qfloor r))).
    rewrite ten_pow_Z by lia. rewrite <- Zle_Qle.
    destruct (Z_lt_le_dec (Z.abs (Qfloor r)) (10 ^ 21)) as [Hs|Hl].
    + destruct (BigInt_toString_small r Hd Hs) as (m & ->).
      split; [discriminate|]. intros [_ H]. lia.
    + rewrite (BigInt_toString_large _ Hl).
      split; [intros [= <-]; now split|now intros [-> _]].
Qed.

Example thousand_tokens_fail :
  amountWei (VNumber (Fin 1000)) 18 = Throw SyntaxError /\
  amountWei (VNumber (Fin 999)) 18 = Ok (999 * 10 ^ 18).
Proof. split; vm_compute; reflexivity. Qed.


(** ** What the handlers read and what they execute *)

(** X16: the lucky-money handler reads nothing of the language model's
    answer but the amount: two answers with the same amount give the same
    run. *)
Theorem lucky_reads_amount_only w g state cb :
  amount (g (composeContext w (currentState w state))) =
  amount (generateObjectDeprecated w (composeContext w (currentState w state))) ->
  run (LuckyMoney.handler (withModel w g) state cb) =
  run (LuckyMoney.handler w state cb).
Proof.
  intros Ha. unfold run.
  destruct (regexMatch (recentMessages (currentState w state))) as [r0|] eqn:E.
  - pose proof (regexMatch_Some _ _ E) as [Hhex _].
    apply hexAddress_addressShape in Hhex.
    rewrite (LuckyMoney_handler_match w state cb r0 E).
    rewrite (LuckyMoney_handler_match (withModel w g) state cb r0 E).
    cbv zeta.
    change (currentState (withModel w g) state) with (currentState w state).
    change (getRecipient (withModel w g)) with (getRecipient w).
    change (addRecipient (withModel w g)) with (addRecipient w).
    assert (Eamount : amount (luckyContent (withModel w g) state r0) =
                      amount (luckyContent w state r0)).
    { unfold luckyContent. cbv zeta.
      cbn [set_recipient generatedContent set_tokenAddress amount].
      change (generateObjectDeprecated (withModel w g)) with g.
      change (composeContext (withModel w g)) with (composeContext w).
      change (currentState (withModel w g) state) with (currentState w state).
      rewrite Ha. now destruct (negb _). }
    rewrite Eamount.
    destruct (getRecipient w _ _); [reflexivity|].
    unfold bind, emit. cbn [app].
    destruct (negb (addRecipient w _ _ _)); [reflexivity|].
    destruct (luckyContent_fields w state r0) as [Ht Hr].
    destruct (luckyContent_fields (withModel w g) state r0) as [Ht' Hr'].
    change (STRK (withModel w g)) with (STRK w) in Ht'.
    rewrite (validateAndTransfer_matched w _ cb r0 _ Hr Hhex).
    rewrite (validateAndTransfer_matched (withModel w g) _ cb r0 _ Hr' Hhex).
    rewrite Ht, Ht', Eamount.
    destruct (_ && _); [|reflexivity].
    change (tryTransfer (withModel w g)) with (tryTransfer w).
    apply tryTransfer_present; try congruence.
    now rewrite Hr.
  - unfold LuckyMoney.handler.
    change (currentState (withModel w g) state) with (currentState w state).
    now rewrite E.
Qed.

Lemma lucky_reads_amount_only_witness :
  run (LuckyMoney.handler
         (withModel (quietWorld greeting (extracted (VString "0.5")) 18)
            (fun _ => mkContent (VString "0xabc") (VString "nobody")
                        (VString "alice.stark") (VString "0.5")))
         None true) =
  run (LuckyMoney.handler (quietWorld greeting (extracted (VString "0.5")) 18)
         None true).
Proof.
  apply (lucky_reads_amount_only
           (quietWorld greeting (extracted (VString "0.5")) 18)).
  reflexivity.
Defined.

(** X17: a transaction is executed only after every earlier step of the
    [try] block has succeeded: the account was found, the token reported
    its decimals, the amount was converted (so it is finite and below
    [10^21] minor units), the recipient is the content's or was resolved
    from the name, and the ERC20 wrapper built that very call. *)
Theorem executes_only_after_every_step w c cb call :
  In (Execute call) (fst (run (tryTransfer w c cb))) ->
  getStarknetAccount w = Ok tt /\
  exists d a r,
    decimals w (tokenAddress c) = Ok d /\
    amountWei (amount c) d = Ok a /\
    ~ beyondDigits (amountInteger (amount c) d) /\
    (if nullish (recipient c) then getAddressFromName w (starkName c)
     else Ok (recipient c)) = Ok r /\
    transferCall w (tokenAddress c) r a = Ok call.
Proof.
  unfold run. rewrite tryTransfer_run. cbn zeta. cbn [app].
  destruct (getStarknetAccount w) as [[]|e] eqn:Hacc;
    [|intros Hin; apply caught_events in Hin as [[]|Hin]; discriminate Hin].
  destruct (decimals w (tokenAddress c)) as [d|e] eqn:Hd;
    [|intros Hin; apply caught_events in Hin as [Hin|Hin];
      [find_event|discriminate Hin]].
  destruct (amountWei (amount c) d) as [a|e] eqn:Ha;
    [|intros Hin; apply caught_events in Hin as [Hin|Hin];
      [find_event|discriminate Hin]].
  assert (Hfin : ~ beyondDigits (amountInteger (amount c) d)).
  { intros Hb.
    assert (Ht : amountWei (amount c) d = Throw SyntaxError)
      by (apply amountWei_throws; now split).
    congruence. }
  assert (Hres : snd (resolved w c) =
                 if nullish (recipient c)
                 then getAddressFromName w (starkName c)
                 else Ok (recipient c))
    by (unfold resolved; now destruct (nullish _)).
  rewrite <- Hres.
  destruct (snd (resolved w c)) as [r|e] eqn:Hr;
    [|intros Hin; apply caught_events in Hin as [Hin|Hin];
      [find_event|discriminate Hin]].
  destruct (transferCall w (tokenAddress c) r a) as [built|e] eqn:Hc;
    [|intros Hin; apply caught_events in Hin as [Hin|Hin];
      [find_event|discriminate Hin]].
  intros Hin.
  assert (Eb : built = call).
  { destruct (execute w built) as [h|e];
      [cbn [fst] in Hin
      |apply caught_events in Hin as [Hin|Hin]; [|discriminate Hin]];
      find_event; reflexivity. }
  subst built. split; [reflexivity|]. exists d, a, r. now repeat split.
Qed.

Lemma executes_only_after_every_step_witness :
  getStarknetAccount (quietWorld greeting (extracted VUndefined) 18) = Ok tt /\
  exists d a r,
    decimals (quietWorld greeting (extracted VUndefined) 18)
      (tokenAddress zeroAmount) = Ok d /\
    amountWei (amount zeroAmount) d = Ok a /\
    ~ beyondDigits (amountInteger (amount zeroAmount) d) /\
    (if nullish (recipient zeroAmount)
     then getAddressFromName (quietWorld greeting (extracted VUndefined) 18)
            (starkName zeroAmount)
     else Ok (recipient zeroAmount)) = Ok r /\
    transferCall (quietWorld greeting (extracted VUndefined) 18)
      (tokenAddress zeroAmount) r a = Ok [0].
Proof.
  apply (executes_only_after_every_step
           (quietWorld greeting (extracted VUndefined) 18) zeroAmount true [0]).
  vm_compute. right. right. left. reflexivity.
Defined.

(** The reply may name more than was sent: 1.001 STRK goes out a hundred
    minor units short. *)
Example gift_of_1001_thousandths :
  amountWei (VNumber (F (1001 # 1000))) 18 = Ok 1000999999999999900.
Proof. vm_compute. reflexivity. Qed.

(** X18: with 18 decimals, what goes out for a draw in [0, 1) is within
    500 minor units of the thousandths the reply names, [n * 10^15] for
    the [n] in [1000, 5000] whose nearest double the amount is. *)
Theorem gift_wei_close q :
  (0 <= q)%Q -> (q < 1)%Q ->
  exists n z,
    1000 <= n <= 5000 /\
    randomAmount (Fin q) = F (n # 1000) /\
    amountWei (VNumber (randomAmount (Fin q))) 18 = Ok z /\
    Z.abs (z - n * 10 ^ 15) <= 500.
Proof.
  intros H0 H1.
  destruct (randomAmount_range_aux q H0 H1) as (n & x & Hn & E & En & _).
  assert (Hin : In n (range 1000 4001)) by (apply range_In; lia).
  pose proof (proj1 (forallb_forall _ _) weiInRange_all n Hin) as Hb.
  unfold weiInRange in Hb. rewrite En in Hb. exists n. rewrite E, En.
  destruct (amountWei (VNumber (Fin x)) 18) as [z|e]; [|discriminate Hb].
  exists z. repeat split; lia.
Qed.

Lemma gift_wei_close_witness :
  exists n z,
    1000 <= n <= 5000 /\
    randomAmount (Fin (1 # 2)) = F (n # 1000) /\
    amountWei (VNumber (randomAmount (Fin (1 # 2)))) 18 = Ok z /\
    Z.abs (z - n * 10 ^ 15) <= 500.
Proof. apply (gift_wei_close (1 # 2)); [discriminate|reflexivity]. Defined.
